(** * Router workflow of RAG-SQL-Router: a shallow embedding

    The development follows [src/workflow.py] (the event-driven
    [RouterOutputAgentWorkflow]) and the history truncation of
    [process_query] in [src/app.py].  Python objects are records, awaited
    calls return an [Outcome], and the workflow runtime is an explicit
    machine whose pending events are delivered one at a time in an order
    chosen by a schedule. *)

From Stdlib Require Import Ascii String.
From stdpp Require Import gmap strings list fin_maps.

Local Open Scope string_scope.
Local Open Scope list_scope.

(** ** Python text and exceptions *)

Module PyText.

Definition squote : ascii := "039"%char.
Definition dquote : ascii := "034"%char.
Definition backslash : ascii := "092"%char.
Definition nl : string := String "010"%char EmptyString.

Definition contains_char (c : ascii) (s : string) : bool :=
  existsb (Ascii.eqb c) (list_ascii_of_string s).

Definition hex_digit (n : nat) : ascii :=
  if (n <? 10)%nat then ascii_of_nat (48 + n) else ascii_of_nat (87 + n).

(** The quote [repr] wraps a [str] in: a double quote exactly when the
    text has a single quote and no double quote. *)
Definition repr_quote (s : string) : ascii :=
  if contains_char squote s && negb (contains_char dquote s)
  then dquote else squote.

Definition repr_char (q c : ascii) : string :=
  let n := nat_of_ascii c in
  if Ascii.eqb c q || Ascii.eqb c backslash then String backslash (String c EmptyString)
  else if (n =? 9)%nat then "\t"
  else if (n =? 10)%nat then "\n"
  else if (n =? 13)%nat then "\r"
  else if (n <? 32)%nat || (n =? 127)%nat
       then "\x" +:+ String (hex_digit (n / 16)) (String (hex_digit (n mod 16)) EmptyString)
  else String c EmptyString.

Fixpoint repr_body (q : ascii) (s : string) : string :=
  match s with
  | EmptyString => EmptyString
  | String c s' => repr_char q c +:+ repr_body q s'
  end.

(** [repr(s)] for a [str] of ASCII text (bytes above 127 are kept, as
    for printable non-ASCII characters). *)
Definition repr (s : string) : string :=
  let q := repr_quote s in
  String q (repr_body q s +:+ String q EmptyString).

End PyText.

(** The exceptions the workflow can meet.  [CancelledError] is not among
    them: it derives from [BaseException] and is a separate [Outcome]. *)
Inductive PyException :=
  | ValueError (msg : string)
  | KeyError (key : string)
  | Exception (msg : string).

(** [str(e)] *)
Definition str_exc (e : PyException) : string :=
  match e with
  | ValueError msg => msg
  | KeyError key => PyText.repr key
  | Exception msg => msg
  end.

(** What awaiting an external call gives. *)
Inductive Outcome (A : Type) :=
  | Return (a : A)
  | Raise (e : PyException)
  | CancelledError.
Arguments Return {A} a.
Arguments Raise {A} e.
Arguments CancelledError {A}.

(** ** Data model *)

Inductive MessageRole := system | user | assistant | tool.

#[global] Instance MessageRole_eq_dec : EqDecision MessageRole.
Proof. solve_decision. Defined.

Record ChatMessage := mkChatMessage {
  role : MessageRole;
  content : string;
  name : option string;
  additional_kwargs : gmap string string
}.

Record ToolSelection := mkToolSelection {
  tool_id : string;
  tool_name : string;
  tool_kwargs : gmap string string
}.

(** A tool adapter: [metadata.name] and the awaited [acall] on the
    keyword arguments,
    whose output is [None] or an object rendered by [str]. *)
Record BaseTool := mkBaseTool {
  metadata_name : string;
  acall : gmap string string → Outcome (option string)
}.

Record ChatResponse := mkChatResponse {
  message : ChatMessage;
  raw_tool_calls : list ToolSelection
}.

(** The reasoning client, as [chat] uses it. *)
Record LLM := mkLLM {
  achat_with_tools :
    list BaseTool → list ChatMessage → bool → Outcome ChatResponse;
  get_tool_calls_from_response :
    ChatResponse → bool → PyException + list ToolSelection
}.

(** The fields of a [RouterOutputAgentWorkflow] instance. *)
Record Workflow := mkWorkflow {
  tools : list BaseTool;
  tools_dict : gmap string BaseTool;
  llm : LLM;
  chat_history : list ChatMessage
}.

(** [__init__] for a reasoning client that is given: the catalog is the
    dict comprehension over [tools] (a later tool of the same name
    replaces an earlier one) and the history is [chat_history or []].
    The fallback to the global client, and the [ValueError] when there is
    none, are a matter of construction and are left out. *)
Definition init (ts : list BaseTool) (l : LLM)
    (history : option (list ChatMessage)) : Workflow :=
  {| tools := ts;
     tools_dict := foldl (λ d t, <[metadata_name t := t]> d) ∅ ts;
     llm := l;
     chat_history := default [] history |}.

Definition set_history (wf : Workflow) (h : list ChatMessage) : Workflow :=
  {| tools := tools wf; tools_dict := tools_dict wf; llm := llm wf;
     chat_history := h |}.

(** [reset] *)
Definition reset (wf : Workflow) : Workflow := set_history wf [].

(** ** Events *)

Inductive Event :=
  | StartEvent (message : option string)
  | InputEvent
  | GatherToolsEvent (tool_calls : list ToolSelection)
  | ToolCallEvent (tool_call : ToolSelection)
  | ToolCallEventResult (msg : ChatMessage)
  | StopEvent (result : string).

(** ** The steps of the workflow *)

Definition system_prompt : string :=
  "You are an intelligent assistant with access to two specialized tools:" +:+ PyText.nl +:+ PyText.nl +:+
  "1. SQL Tool: For querying structured data about people/students including names, " +:+
  "birthdays, contact info, addresses, etc. Use this for specific person lookups " +:+
  "and data analysis." +:+ PyText.nl +:+ PyText.nl +:+
  "2. Document Tool: For searching uploaded documents about policies, procedures, " +:+
  "institutional information, etc. Use this for conceptual questions." +:+ PyText.nl +:+ PyText.nl +:+
  "IMPORTANT GUIDELINES:" +:+ PyText.nl +:+
  "- When a user asks about a specific person's information (name, birthday, phone, email, address), use ONLY the sql_tool" +:+ PyText.nl +:+
  "- When they ask about policies, procedures, or general information from documents, use ONLY the document_tool" +:+ PyText.nl +:+
  "- Make ONE targeted tool call per query - do not make multiple calls to the same tool" +:+ PyText.nl +:+
  "- Choose the most appropriate single tool based on the question type" +:+ PyText.nl +:+
  "- For mixed queries (e.g., 'terms and conditions AND phone owner'), make separate tool calls for each part".

Definition system_msg : ChatMessage :=
  {| role := system; content := system_prompt; name := None;
     additional_kwargs := ∅ |}.

Definition user_msg (text : string) : ChatMessage :=
  {| role := user; content := text; name := None; additional_kwargs := ∅ |}.

(** [prepare_chat]: raises when the start event has no message. *)
Definition prepare_chat (wf : Workflow) (message : option string)
    : PyException + (Workflow * Event) :=
  match message with
  | None => inl (ValueError "'message' field is required.")
  | Some text =>
      let h := chat_history wf in
      let h := match h with [] => h ++ [system_msg] | _ :: _ => h end in
      inr (set_history wf (h ++ [user_msg text]), InputEvent)
  end.

Definition chat_cancelled_text : string :=
  "The operation was cancelled. Please try again.".
Definition chat_apology_text : string :=
  "I encountered an issue processing your request. Please try rephrasing your question.".

(** The two calls on the reasoning client at the head of the [try] in
    [chat]: the awaited model call with [allow_parallel_tool_calls=False],
    then the extraction with [error_on_no_tool_call=False]. *)
Definition reasoning_call (wf : Workflow)
    : Outcome (ChatMessage * list ToolSelection) :=
  match achat_with_tools (llm wf) (tools wf) (chat_history wf) false with
  | CancelledError => CancelledError
  | Raise e => Raise e
  | Return chat_res =>
      match get_tool_calls_from_response (llm wf) chat_res false with
      | inl e => Raise e
      | inr tool_calls => Return (message chat_res, tool_calls)
      end
  end.

(** [chat]: one reasoning step.  Whatever is raised comes before the
    assistant message is appended and leaves the history as it was. *)
Definition chat (wf : Workflow) : Workflow * Event :=
  match reasoning_call wf with
  | CancelledError => (wf, StopEvent chat_cancelled_text)
  | Raise _ => (wf, StopEvent chat_apology_text)
  | Return (ai_message, tool_calls) =>
      let wf' := set_history wf (chat_history wf ++ [ai_message]) in
      match tool_calls with
      | [] => (wf', StopEvent (content ai_message))
      | _ :: _ => (wf', GatherToolsEvent tool_calls)
      end
  end.

(** The per-run [Context]: the stored [num_tool_calls] and the buffer
    of [ToolCallEventResult]s held by [collect_events]. *)
Record Context := mkContext {
  num_tool_calls : option nat;
  events_buffer : list ChatMessage
}.

Definition fresh_context : Context :=
  {| num_tool_calls := None; events_buffer := [] |}.

(** [dispatch_calls]: records the count, sends one event per call, and
    returns [None]. *)
Definition dispatch_calls (ctx : Context) (tool_calls : list ToolSelection)
    : Context * list Event :=
  ({| num_tool_calls := Some (length tool_calls);
      events_buffer := events_buffer ctx |},
   map ToolCallEvent tool_calls).

Definition tool_message (tc : ToolSelection) (text : string) : ChatMessage :=
  {| role := tool;
     content := text;
     name := Some (tool_name tc);
     additional_kwargs :=
       <["tool_used" := tool_name tc]>
         (<["name" := tool_name tc]> {["tool_call_id" := tool_id tc]}) |}.

Definition tool_cancelled_text : string := "Tool execution was cancelled".

Definition tool_error_text (tc : ToolSelection) (e : PyException) : string :=
  "Error executing " +:+ tool_name tc +:+ ": " +:+ str_exc e.

(** The body of the [try] in [call_tool]: the catalog lookup, then the
    awaited adapter, then [str(output)]. *)
Definition invoke_tool (wf : Workflow) (tc : ToolSelection) : Outcome string :=
  match tools_dict wf !! tool_name tc with
  | None => Raise (KeyError (tool_name tc))
  | Some t =>
      match acall t (tool_kwargs tc) with
      | Return output => Return (default "" output)
      | Raise e => Raise e
      | CancelledError => CancelledError
      end
  end.

(** The message [call_tool] builds for a call, through its three exits. *)
Definition call_tool_msg (wf : Workflow) (tc : ToolSelection) : ChatMessage :=
  match invoke_tool wf tc with
  | Return text => tool_message tc text
  | CancelledError => tool_message tc tool_cancelled_text
  | Raise e => tool_message tc (tool_error_text tc e)
  end.

(** [call_tool] *)
Definition call_tool (wf : Workflow) (tc : ToolSelection) : Event :=
  ToolCallEventResult (call_tool_msg wf tc).

(** Modelled from the spec: [Context.collect_events] of the workflow
    library, which is not part of the repository.  The incoming result is
    buffered; nothing is handed out until as many results as expected
    have accumulated; then they leave the buffer in the order they
    arrived. *)
Definition collect_events (ctx : Context) (ev : ChatMessage) (expected : nat)
    : Context * option (list ChatMessage) :=
  let buf := events_buffer ctx ++ [ev] in
  if decide (expected ≤ length buf)%nat
  then ({| num_tool_calls := num_tool_calls ctx;
           events_buffer := drop expected buf |}, Some (take expected buf))
  else ({| num_tool_calls := num_tool_calls ctx; events_buffer := buf |}, None).

Definition gather_apology_text : string :=
  "I encountered an issue processing the tool responses. Please try again.".

(** [gather]: [ctx.get] of a key never stored raises inside the [try];
    an empty or missing collection returns [None]. *)
Definition gather (wf : Workflow) (ctx : Context) (ev : ChatMessage)
    : Workflow * Context * option Event :=
  match num_tool_calls ctx with
  | None => (wf, ctx, Some (StopEvent gather_apology_text))
  | Some n =>
      match collect_events ctx ev n with
      | (ctx', None) => (wf, ctx', None)
      | (ctx', Some []) => (wf, ctx', None)
      | (ctx', Some tool_events) =>
          (set_history wf (chat_history wf ++ tool_events), ctx', Some InputEvent)
      end
  end.

Local Close Scope string_scope.

(** ** The workflow runtime

    Modelled from the spec: the event loop of the workflow library
    ([Workflow.run], [send_event]), which is not part of the repository.
    A run owns a fresh [Context]; every event a step returns or sends is
    pending until it is delivered to the step that accepts its type;
    pending events are delivered one at a time, in any order (the order
    is the schedule's choice); an exception leaving a step leaves [run];
    a delivered [StopEvent] ends the run with its result. *)

Inductive Status :=
  | Running
  | Returned (result : string)
  | Raised (e : PyException).

Record Machine := mkMachine {
  wf : Workflow;
  ctx : Context;
  queue : list Event;
  status : Status;
  (** ghost: the calls [call_tool] was entered for, in order *)
  calls_run : list ToolSelection
}.

Definition option_event (o : option Event) : list Event :=
  match o with Some ev => [ev] | None => [] end.

(** Delivery of one event to its step; [q] is what else is pending. *)
Definition deliver (ev : Event) (m : Machine) (q : list Event) : Machine :=
  match ev with
  | StartEvent message =>
      match prepare_chat (wf m) message with
      | inl e => mkMachine (wf m) (ctx m) q (Raised e) (calls_run m)
      | inr (wf', out) => mkMachine wf' (ctx m) (q ++ [out]) Running (calls_run m)
      end
  | InputEvent =>
      let '(wf', out) := chat (wf m) in
      mkMachine wf' (ctx m) (q ++ [out]) Running (calls_run m)
  | GatherToolsEvent tool_calls =>
      let '(ctx', outs) := dispatch_calls (ctx m) tool_calls in
      mkMachine (wf m) ctx' (q ++ outs) Running (calls_run m)
  | ToolCallEvent tc =>
      mkMachine (wf m) (ctx m) (q ++ [call_tool (wf m) tc]) Running
        (calls_run m ++ [tc])
  | ToolCallEventResult msg =>
      let '(wf', ctx', out) := gather (wf m) (ctx m) msg in
      mkMachine wf' ctx' (q ++ option_event out) Running (calls_run m)
  | StopEvent result =>
      mkMachine (wf m) (ctx m) q (Returned result) (calls_run m)
  end.

(** One scheduling decision: the pending event at position
    [choice mod length queue] is delivered.  A finished run, and a run
    with nothing pending, stay as they are. *)
Definition step (choice : nat) (m : Machine) : Machine :=
  match status m with
  | Running =>
      let i := choice mod length (queue m) in
      match queue m !! i with
      | Some ev => deliver ev m (delete i (queue m))
      | None => m
      end
  | _ => m
  end.

(** [n] scheduling decisions, the [t]-th of the run first. *)
Fixpoint exec (sched : nat → nat) (n t : nat) (m : Machine) : Machine :=
  match n with
  | 0 => m
  | S n' => exec sched n' (S t) (step (sched t) m)
  end.

Definition start (w : Workflow) (message : option string) : Machine :=
  mkMachine w fresh_context [StartEvent message] Running [].

(** [run(message=...)], observed after [n] scheduling decisions. *)
Definition run (sched : nat → nat) (n : nat) (w : Workflow)
    (message : option string) : Machine :=
  exec sched n 0 (start w message).

(** ** Session-level preparation of [process_query] and [run_query] *)

(** [process_query], before the run: above 20 messages only a leading
    system message is kept. *)
Definition truncate_history (w : Workflow) : Workflow :=
  if decide (20 < length (chat_history w))
  then
    let system_msg' :=
      match chat_history w with
      | m0 :: _ => if decide (role m0 = system) then Some m0 else None
      | [] => None
      end in
    set_history w (match system_msg' with Some m0 => [m0] | None => [] end)
  else w.

(** The truncation and the run of [process_query].  The wall-clock
    timeout around the run and the report printed after it are outside
    this model. *)
Definition process_query_run (sched : nat → nat) (n : nat) (w : Workflow)
    (query : string) : Machine :=
  run sched n (truncate_history w) (Some query).

(** The [try] body of [run_query]: a reset, then the run. *)
Definition reset_then_run (sched : nat → nat) (n : nat) (w : Workflow)
    (query : string) : Machine :=
  run sched n (reset w) (Some query).

(** [run_query]: the text it returns once the run is over ([None] while
    it is still going); an exception out of the run becomes a text. *)
Definition run_query (sched : nat → nat) (n : nat) (w : Workflow)
    (query : string) : option string :=
  match status (reset_then_run sched n w query) with
  | Running => None
  | Returned result => Some result
  | Raised e => Some ("Error running query: " +:+ str_exc e)%string
  end.

(** ** Notions used by the statements *)

(** The workflow as [prepare_chat] leaves it for a present message. *)
Definition prepared (w : Workflow) (text : string) : Workflow :=
  match prepare_chat w (Some text) with
  | inr (w', _) => w'
  | inl _ => w
  end.

(** The parts of a workflow instance that no step assigns. *)
Definition config (w : Workflow) : list BaseTool * gmap string BaseTool * LLM :=
  (tools w, tools_dict w, llm w).

Definition start_event (ev : Event) : Prop :=
  match ev with StartEvent _ => True | _ => False end.

(** Nothing was raised and no [StartEvent] is pending. *)
Definition safe (m : Machine) : Prop :=
  (∀ e, status m ≠ Raised e) ∧ Forall (λ ev, ¬ start_event ev) (queue m).

(** The message a pending event of a round stands for. *)
Definition result_of (w : Workflow) (ev : Event) : option ChatMessage :=
  match ev with
  | ToolCallEvent tc => Some (call_tool_msg w tc)
  | ToolCallEventResult msg => Some msg
  | _ => None
  end.

(** Deliveries an event still needs before it is in the buffer. *)
Definition weight (ev : Event) : nat :=
  match ev with
  | ToolCallEvent _ => 2
  | ToolCallEventResult _ => 1
  | _ => 0
  end.

Definition round_event (ev : Event) : Prop :=
  match ev with
  | ToolCallEvent _ | ToolCallEventResult _ => True
  | _ => False
  end.

(** Between [dispatch_calls] and the fold: the history is that of [w],
    the stored count is [n], and the [n] results are split between the
    buffer and the pending events. *)
Record in_round (w : Workflow) (n : nat) (target : list ChatMessage)
    (m : Machine) : Prop := {
  ir_status : status m = Running;
  ir_wf : wf m = w;
  ir_num : num_tool_calls (ctx m) = Some n;
  ir_events : Forall round_event (queue m);
  ir_msgs : events_buffer (ctx m) ++ omap (result_of w) (queue m) ≡ₚ target;
  ir_len : length target = n
}.

(** The phases of a run. *)
Inductive phase (m : Machine) : Prop :=
  | ph_start message :
      status m = Running → queue m = [StartEvent message] →
      events_buffer (ctx m) = [] → phase m
  | ph_reasoning :
      status m = Running → queue m = [InputEvent] →
      events_buffer (ctx m) = [] → phase m
  | ph_dispatch tc tcs :
      status m = Running → queue m = [GatherToolsEvent (tc :: tcs)] →
      events_buffer (ctx m) = [] → phase m
  | ph_round n target :
      in_round (wf m) n target m → queue m ≠ [] → phase m
  | ph_stopping result :
      status m = Running → queue m = [StopEvent result] → phase m
  | ph_finished :
      status m ≠ Running → queue m = [] → phase m.

Definition tool_count (h : list ChatMessage) : nat :=
  length (filter (λ x, role x = tool) h).


(** The reasoning client honours [allow_parallel_tool_calls=False]: at
    most one call per reply. *)
Definition single_call (w : Workflow) : Prop :=
  ∀ h ai tcs,
    reasoning_call (set_history w h) = Return (ai, tcs) → (length tcs ≤ 1)%nat.

(** At most one event is pending, and a pending dispatch is of at most
    one call. *)
Definition narrow (w : Workflow) (m : Machine) : Prop :=
  (length (queue m) ≤ 1)%nat
  ∧ config (wf m) = config w
  ∧ ∀ tcs, GatherToolsEvent tcs ∈ queue m → (length tcs ≤ 1)%nat.

(** [needle in hay] *)
Fixpoint mentions (needle hay : string) : bool :=
  if String.prefix needle hay then true
  else match hay with
       | EmptyString => false
       | String _ hay' => mentions needle hay'
       end.

(** What the fixed system message has to say. *)
Definition guideline_phrases : list string :=
  [ "1. SQL Tool: For querying structured data about people/students";
    "2. Document Tool: For searching uploaded documents about policies, procedures";
    "Make ONE targeted tool call per query";
    "For mixed queries";
    "make separate tool calls for each part" ]%string.

(** The shape a history has after a direct answer when nothing but the
    turn is in it: an optional system message, the user message, the
    final assistant message. *)
Definition direct_answer_history (text : string) (ai : ChatMessage)
    (h : list ChatMessage) : Prop :=
  h = [user_msg text; ai] ∨ ∃ s, role s = system ∧ h = [s; user_msg text; ai].



(** ** A concrete session *)

Module Demo.
Local Open Scope string_scope.

Definition sql_tool : BaseTool :=
  mkBaseTool "sql_tool" (λ _, Return (Some "1990-04-12")).
Definition document_tool : BaseTool :=
  mkBaseTool "document_tool" (λ _, Raise (Exception "index offline")).
Definition slow_tool : BaseTool :=
  mkBaseTool "slow_tool" (λ _, CancelledError).

Definition call_sql : ToolSelection :=
  mkToolSelection "call_1" "sql_tool" {[ "input" := "birthday of Paula Walker" ]}.
Definition call_doc : ToolSelection :=
  mkToolSelection "call_2" "document_tool" {[ "input" := "privacy policy" ]}.
Definition call_slow : ToolSelection :=
  mkToolSelection "call_3" "slow_tool" ∅.
Definition call_web : ToolSelection :=
  mkToolSelection "call_4" "web_tool" ∅.

Definition ai_msg (text : string) : ChatMessage :=
  mkChatMessage assistant text None ∅.

Definition extract (r : ChatResponse) (error_on_no_tool_call : bool)
    : PyException + list ToolSelection :=
  inr (raw_tool_calls r).

(** answers at once *)
Definition llm_direct : LLM :=
  mkLLM (λ _ _ _, Return (mkChatResponse (ai_msg "Hello!") [])) extract.

(** the model call fails *)
Definition llm_down : LLM :=
  mkLLM (λ _ _ _, Raise (Exception "rate limited")) extract.

(** requests the given calls while no tool message is in the history,
    then answers *)
Definition llm_calls (calls : list ToolSelection) : LLM :=
  mkLLM (λ _ h _,
           if decide (tool_count h = 0)
           then Return (mkChatResponse (ai_msg "") calls)
           else Return (mkChatResponse (ai_msg "Done.") []))
        extract.

Definition catalog : list BaseTool := [sql_tool; document_tool; slow_tool].

Definition fresh (l : LLM) : Workflow := init catalog l None.

(** a session that has already answered one question *)
Definition seasoned : Workflow :=
  init catalog llm_direct
    (Some [system_msg; user_msg "Hi"; ai_msg "Hello!"]).

Definition fifo (t : nat) : nat := 0.
Definition staggered (t : nat) : nat := t + 3.

End Demo.

(** ** Construction of a workflow *)

(** [__init__] in full: the reasoning client is [llm or Settings.llm],
    and without either the constructor raises. *)
Definition construct (ts : list BaseTool) (llm_arg settings_llm : option LLM)
    (history : option (list ChatMessage)) : PyException + Workflow :=
  match (match llm_arg with Some l => Some l | None => settings_llm end) with
  | None => inl (ValueError "No LLM provided and Settings.llm is not initialized")
  | Some l => inr (init ts l history)
  end.

(** [create_workflow]: no client and no history are passed; a failure of
    the constructor is raised again. *)
Definition create_workflow (ts : list BaseTool) (settings_llm : option LLM)
    : PyException + Workflow :=
  construct ts None settings_llm None.

(** ** The tools of [src/tools.py] *)

(** A row of [PRAGMA table_info]: cid, name, type, notnull, dflt_value, pk. *)
Record TableInfoRow := mkTableInfoRow {
  row_cid : Z;
  row_name : string;
  row_type : string;
  row_notnull : Z;
  row_dflt_value : option string;
  row_pk : Z
}.

(** The dict [get_database_schema] builds per column. *)
Record Column := mkColumn {
  col_name : string;
  col_type : string;
  col_not_null : bool;
  col_primary_key : bool
}.

(** [get_database_schema], given what the database answered: the rows of
    the table, or the exception of the [try]. *)
Definition get_database_schema (table_info : PyException + list TableInfoRow)
    : list Column :=
  match table_info with
  | inl _ => []
  | inr rows =>
      map (λ row, {| col_name := row_name row;
                     col_type := row_type row;
                     col_not_null := negb (row_notnull row =? 0)%Z;
                     col_primary_key := negb (row_pk row =? 0)%Z |}) rows
  end.

Definition column_line (col : Column) : string :=
  "  - " +:+ col_name col +:+ " (" +:+ col_type col +:+ ")" +:+ PyText.nl.

(** The loop of [setup_sql_tool] that builds [schema_description]. *)
Definition schema_description (schema_info : list Column) : string :=
  foldl (λ acc col, acc +:+ column_line col)
        ("Available columns:" +:+ PyText.nl) schema_info.

(** The description [setup_sql_tool] gives its tool. *)
Definition sql_tool_description (table_name : string)
    (schema_info : list Column) : string :=
  "Use this tool to query structured data from the '" +:+ table_name +:+ "' table. " +:+
  "This contains student/person data with the following information:" +:+ PyText.nl +:+
  schema_description schema_info +:+ PyText.nl +:+
  "Use this tool for:" +:+ PyText.nl +:+
  "- Finding specific people by name (e.g., 'Paula Walker', 'John Smith')" +:+ PyText.nl +:+
  "- Getting personal details like birthdays, phone numbers, emails, addresses" +:+ PyText.nl +:+
  "- Filtering data by criteria (age, location, etc.)" +:+ PyText.nl +:+
  "- Statistical queries and data analysis" +:+ PyText.nl +:+
  "- Any questions about the structured data in the Excel file" +:+ PyText.nl +:+ PyText.nl +:+
  "Examples of queries for this tool:" +:+ PyText.nl +:+
  "- 'What is the birthday of Paula Walker?'" +:+ PyText.nl +:+
  "- 'Find all students from California'" +:+ PyText.nl +:+
  "- 'How many people are in the database?'".

(** [document_query_tool], the function behind the document tool, over
    the query engine it closes on: the engine's answer rendered by
    [str], or the text of the [except] branch. *)
Definition document_query_tool (query_engine : string → PyException + string)
    (query : string) : string :=
  match query_engine query with
  | inr response => response
  | inl e => "Error querying documents: " +:+ str_exc e
  end.

(** [validate_tools]: a failed [assert] is caught and gives [False]. *)
Definition validate_tools (sql_tool doc_tool : BaseTool) : bool :=
  if decide (metadata_name sql_tool = "sql_tool"%string)
  then if decide (metadata_name doc_tool = "document_tool"%string)
       then true else false
  else false.

(** ** The tool report of [process_query] *)

Definition lower_char (c : ascii) : ascii :=
  let n := nat_of_ascii c in
  if (65 <=? n) && (n <=? 90) then ascii_of_nat (n + 32) else c.

(** [str.lower] on the ASCII capitals.  Other characters are kept; none
    of them lowers to a letter of the two words the report tests for. *)
Fixpoint lower (s : string) : string :=
  match s with
  | EmptyString => EmptyString
  | String c s' => String (lower_char c) (lower s')
  end.

(** The test on a tool message's content. *)
Definition reportable (msg : ChatMessage) : bool :=
  negb (mentions "cancelled" (lower (content msg)))
  && negb (mentions "error" (lower (content msg))).

(** [msg.additional_kwargs.get('tool_used', 'Unknown')] *)
Definition tool_used_name (msg : ChatMessage) : string :=
  default "Unknown"%string (additional_kwargs msg !! "tool_used"%string).

(** One pass of the loop over the history; the state is [tools_used]
    (name and response) and [tool_names_seen]. *)
Definition report_step (acc : list (string * string) * gset string)
    (msg : ChatMessage) : list (string * string) * gset string :=
  let '(tools_used, tool_names_seen) := acc in
  if decide (role msg = tool) then
    let tool_name := tool_used_name msg in
    if reportable msg then
      if decide (tool_name ∈ tool_names_seen) then acc
      else (tools_used ++ [(tool_name, content msg)],
            {[tool_name]} ∪ tool_names_seen)
    else acc
  else acc.

Definition tools_used (history : list ChatMessage) : list (string * string) :=
  (foldl report_step ([], ∅) history).1.

(** What the loop has established after the messages of [h]. *)
Definition reported (h : list ChatMessage)
    (acc : list (string * string) * gset string) : Prop :=
  NoDup acc.1.*1
  ∧ (∀ n, n ∈ acc.2 ↔ n ∈ acc.1.*1)
  ∧ (∀ n r, (n, r) ∈ acc.1 →
       ∃ h1 msg h2, h = h1 ++ msg :: h2
         ∧ role msg = tool ∧ reportable msg = true
         ∧ tool_used_name msg = n ∧ content msg = r
         ∧ ∀ m', m' ∈ h1 → role m' = tool → reportable m' = true →
             tool_used_name m' ≠ n)
  ∧ (∀ msg, msg ∈ h → role msg = tool → reportable msg = true →
       tool_used_name msg ∈ acc.2).

(** ** Further notions *)

Definition pending_call (ev : Event) : option ToolSelection :=
  match ev with ToolCallEvent tc => Some tc | _ => None end.

(** The calls run so far together with those still to be run. *)
Definition planned (m : Machine) : list ToolSelection :=
  calls_run m ++ omap pending_call (queue m).

(** What a run may return: one of the two fixed texts of [chat], or the
    content of the message that ends the history. *)
Definition turn_result (m : Machine) (result : string) : Prop :=
  result = chat_cancelled_text ∨ result = chat_apology_text
  ∨ ∃ h ai, chat_history (wf m) = h ++ [ai] ∧ result = content ai.

(** A run in one of its phases whose pending or delivered stop carries a
    [turn_result]. *)
Definition well_stopped (m : Machine) : Prop :=
  phase m
  ∧ (∀ result, StopEvent result ∈ queue m → turn_result m result)
  ∧ (∀ result, status m = Returned result → turn_result m result).

(** The reasoning client's replies are not tool messages. *)
Definition replies_not_tool (w : Workflow) : Prop :=
  ∀ h ai tcs, reasoning_call (set_history w h) = Return (ai, tcs) → role ai ≠ tool.

(** Every tool message in the history, in the buffer or pending as a
    result was in the history of [w0] or is the message of a call that
    was run. *)
Definition traced (w0 : Workflow) (m : Machine) : Prop :=
  config (wf m) = config w0
  ∧ ∀ msg, role msg = tool →
      msg ∈ chat_history (wf m) ∨ msg ∈ events_buffer (ctx m)
      ∨ ToolCallEventResult msg ∈ queue m →
      msg ∈ chat_history w0 ∨ ∃ tc, tc ∈ calls_run m ∧ msg = call_tool_msg w0 tc.


(** Two rows as [PRAGMA table_info] gives them. *)
Definition people_rows : list TableInfoRow :=
  [ mkTableInfoRow 0 "Name" "TEXT" 0 None 0;
    mkTableInfoRow 1 "Birthday" "DATETIME" 0 None 0 ].

(** A history with a successful call, a failed one, and a second
    successful call of the first tool. *)
Definition reported_history : list ChatMessage :=
  [ user_msg "Hi";
    tool_message Demo.call_sql "1990-04-12";
    tool_message Demo.call_doc
      (tool_error_text Demo.call_doc (Exception "index offline"));
    tool_message Demo.call_sql "1985-01-30" ].

(** * Proofs *)

(** ** Basic facts about the runtime *)

Lemma exec_add sched a b t m :
  exec sched (a + b) t m = exec sched b (t + a) (exec sched a t m).
Proof.
  revert t m. induction a as [|a IH]; intros t m; simpl.
  - by rewrite Nat.add_0_r.
  - rewrite IH. f_equal. lia.
Qed.

Lemma step_finished c m : status m ≠ Running → step c m = m.
Proof. unfold step. by destruct (status m). Qed.

Lemma exec_finished sched n t m : status m ≠ Running → exec sched n t m = m.
Proof.
  revert t m. induction n as [|n IH]; intros t m Hm; simpl; [done|].
  rewrite step_finished by done. by apply IH.
Qed.

Lemma step_single c w cx ev l :
  step c (mkMachine w cx [ev] Running l)
  = deliver ev (mkMachine w cx [ev] Running l) [].
Proof. unfold step. cbn [status queue length]. by rewrite Nat.mod_1_r. Qed.

Lemma step_pick c m :
  status m = Running → queue m ≠ [] →
  ∃ i ev, queue m !! i = Some ev ∧ step c m = deliver ev m (delete i (queue m)).
Proof.
  intros Hs Hq. unfold step. rewrite Hs.
  destruct (lookup_lt_is_Some_2 (queue m) (c mod length (queue m))) as [ev Hev].
  { apply Nat.mod_upper_bound. by destruct (queue m). }
  exists (c mod length (queue m)), ev. by rewrite Hev.
Qed.

Lemma chat_config w : config (chat w).1 = config w.
Proof.
  unfold chat. by destruct (reasoning_call w) as [[ai [|]]| |].
Qed.

Lemma gather_config w cx ev : config (gather w cx ev).1.1 = config w.
Proof.
  unfold gather. destruct (num_tool_calls cx); [|done].
  destruct (collect_events cx ev n) as [cx' [[|]|]]; done.
Qed.

Lemma deliver_config ev m q : config (wf (deliver ev m q)) = config (wf m).
Proof.
  destruct ev as [[text|]| | | | |]; simpl; try done.
  - pose proof (chat_config (wf m)) as H. by destruct (chat (wf m)).
  - pose proof (gather_config (wf m) (ctx m) msg) as H.
    by destruct (gather (wf m) (ctx m) msg) as [[? ?] ?].
Qed.

Lemma step_config c m : config (wf (step c m)) = config (wf m).
Proof.
  unfold step. destruct (status m); try done.
  destruct (queue m !! _); [apply deliver_config|done].
Qed.

Lemma exec_config sched n t m : config (wf (exec sched n t m)) = config (wf m).
Proof.
  revert t m. induction n as [|n IH]; intros t m; simpl; [done|].
  by rewrite IH, step_config.
Qed.

Lemma call_tool_msg_config w w' tc :
  config w = config w' → call_tool_msg w tc = call_tool_msg w' tc.
Proof.
  intros [=_ Hd _]. unfold call_tool_msg, invoke_tool. by rewrite Hd.
Qed.

Lemma call_tool_msg_role w tc : role (call_tool_msg w tc) = tool.
Proof. unfold call_tool_msg. by destruct (invoke_tool w tc). Qed.

(** *** No exception leaves a run that was given a message *)

Lemma deliver_safe ev m q :
  ¬ start_event ev → (∀ e, status m ≠ Raised e) →
  Forall (λ ev, ¬ start_event ev) q → safe (deliver ev m q).
Proof.
  intros Hev Hs Hq. destruct ev as [?| |tcs|tc|msg|r]; simpl.
  - by destruct Hev.
  - unfold chat. destruct (reasoning_call (wf m)) as [[ai [|]]| |];
      (split; [done|]; apply Forall_app; split; [done|]; by repeat constructor).
  - split; [done|]. apply Forall_app; split; [done|].
    apply Forall_fmap, Forall_true. by intros ?.
  - split; [done|]. apply Forall_app; split; [done|]. by repeat constructor.
  - unfold gather. destruct (num_tool_calls (ctx m)) as [n|].
    + destruct (collect_events (ctx m) msg n) as [cx' [[|]|]];
        (split; [done|]; apply Forall_app; split; [done|]; by repeat constructor).
    + split; [done|]. apply Forall_app; split; [done|]. by repeat constructor.
  - split; [done|]. done.
Qed.

Lemma step_safe c m : safe m → safe (step c m).
Proof.
  intros Hm. pose proof Hm as [Hs Hq].
  unfold step. destruct (status m) eqn:E; try assumption.
  destruct (queue m !! _) as [ev|] eqn:Hev; [|assumption].
  apply deliver_safe.
  - eapply Forall_lookup_1 in Hq; eauto.
  - by rewrite E.
  - by apply Forall_delete.
Qed.

Lemma exec_safe sched n t m : safe m → safe (exec sched n t m).
Proof.
  revert t m. induction n as [|n IH]; intros t m Hm; simpl; [done|].
  by apply IH, step_safe.
Qed.

(** *** One round of tool calls *)

Lemma round_omap_length w q :
  Forall round_event q → length (omap (result_of w) q) = length q.
Proof.
  induction 1 as [|ev q Hev _ IH]; [done|].
  destruct ev; try done; simpl; f_equal; apply IH.
Qed.

Lemma round_weight_pos q :
  Forall round_event q → q ≠ [] → 0 < sum_list_with weight q.
Proof.
  destruct 1 as [|ev q Hev _]; [done|]. intros _.
  destruct ev; try done; simpl; lia.
Qed.

Lemma in_round_buffer w n target m :
  in_round w n target m → length (events_buffer (ctx m)) + length (queue m) = n.
Proof.
  intros [_ _ _ Hev Hp Hl]. apply Permutation_length in Hp.
  rewrite length_app, round_omap_length in Hp by done. lia.
Qed.

(** A delivery inside a round: either the round goes on, one delivery
    closer to its end, or (last result) the buffer is folded into the
    history and the next reasoning call is pending. *)
Lemma in_round_step c w n target m k :
  in_round w n target m → sum_list_with weight (queue m) = S k →
  (k ≠ 0 → in_round w n target (step c m)
           ∧ sum_list_with weight (queue (step c m)) = k)
  ∧ (k = 0 → ∃ msgs, msgs ≡ₚ target
       ∧ step c m = mkMachine (set_history w (chat_history w ++ msgs))
                      (mkContext (Some n) []) [InputEvent] Running (calls_run m)).
Proof.
  intros Hir Hk. pose proof (in_round_buffer _ _ _ _ Hir) as Hlen.
  destruct Hir as [Hs Hw Hn Hev Hp Hl].
  destruct (step_pick c m Hs) as (i & ev & Hi & ->).
  { intros Hq. rewrite Hq in Hk. done. }
  pose proof (delete_Permutation _ _ _ Hi) as Hperm.
  pose proof (Forall_lookup_1 _ _ _ _ Hev Hi) as Hrev.
  assert (Hrest : Forall round_event (delete i (queue m))) by by apply Forall_delete.
  assert (Hwt : weight ev + sum_list_with weight (delete i (queue m)) = S k).
  { rewrite <- Hk. by rewrite (sum_list_with_Permutation_proper weight _ _ Hperm). }
  assert (Hql : length (queue m) = S (length (delete i (queue m)))).
  { by rewrite (Permutation_length Hperm). }
  rewrite (omap_Permutation (result_of w) _ _ Hperm) in Hp.
  destruct ev as [?| |?|tc|msg|?]; try done; simpl in Hwt, Hp.
  - (* call_tool *)
    split; [intros Hk0|intros ->; lia]. simpl. split.
    + split; simpl; try done.
      * apply Forall_app. split; [done|]. by repeat constructor.
      * rewrite omap_app. simpl. rewrite Hw. rewrite <- Hp.
        apply Permutation_app_head. symmetry. apply Permutation_cons_append.
    + rewrite sum_list_with_app. simpl. lia.
  - (* gather *)
    simpl. unfold gather. rewrite Hn. unfold collect_events.
    destruct (decide (n ≤ length (events_buffer (ctx m) ++ [msg]))) as [Hfull|Hwait];
      rewrite length_app in *; simpl in *.
    + (* the last result *)
      assert (Hnil : delete i (queue m) = []).
      { apply length_zero_iff_nil. lia. }
      rewrite Hnil in *. simpl in *.
      split; [intros Hk0; lia|intros _].
      rewrite take_ge, drop_ge by (rewrite length_app; simpl; lia).
      rewrite Hn, Hw.
      destruct (events_buffer (ctx m) ++ [msg]) as [|m0 buf] eqn:Hbuf.
      { by destruct (events_buffer (ctx m)). }
      exists (m0 :: buf). split; [by rewrite <- Hp|]. done.
    + split; [intros Hk0|intros ->].
      * split; [split; simpl; try done|simpl; rewrite app_nil_r; lia].
        -- by rewrite app_nil_r.
        -- rewrite app_nil_r, <- Hp, <- (assoc_L (++)). done.
      * assert (delete i (queue m) = []) as Hnil.
        { destruct (delete i (queue m)) as [|ev' q'] eqn:Hd; [done|].
          exfalso. apply Forall_cons in Hrest as [Hev' _].
          destruct ev'; try done; simpl in Hwt; lia. }
        rewrite Hnil in *. simpl in *. lia.
Qed.

Lemma in_round_exec sched w n target k : ∀ t m,
  in_round w n target m → sum_list_with weight (queue m) = S k →
  (∀ j, j ≤ k → in_round w n target (exec sched j t m)
                ∧ sum_list_with weight (queue (exec sched j t m)) = S k - j)
  ∧ ∃ msgs log, msgs ≡ₚ target
      ∧ exec sched (S k) t m
        = mkMachine (set_history w (chat_history w ++ msgs))
            (mkContext (Some n) []) [InputEvent] Running log.
Proof.
  induction k as [|k IH]; intros t m Hir Hk.
  - split.
    + intros j Hj. replace j with 0 by lia. simpl. split; [done|lia].
    + destruct (in_round_step (sched t) _ _ _ _ _ Hir Hk) as [_ Hlast].
      destruct (Hlast eq_refl) as (msgs & Hp & Hstep).
      exists msgs, (calls_run m). by rewrite <- Hstep.
  - destruct (in_round_step (sched t) _ _ _ _ _ Hir Hk) as [Hgo _].
    destruct Hgo as [Hir' Hk']; [done|].
    destruct (IH (S t) _ Hir' Hk') as [Hmid Hend]. split.
    + intros [|j] Hj; [simpl; split; [done|lia]|].
      simpl. destruct (Hmid j) as [? ?]; [lia|]. split; [done|lia].
    + done.
Qed.

Lemma dispatch_in_round c w cx tcs l :
  events_buffer cx = [] →
  let m' := step c (mkMachine w cx [GatherToolsEvent tcs] Running l) in
  in_round w (length tcs) (map (call_tool_msg w) tcs) m'
  ∧ queue m' = map ToolCallEvent tcs
  ∧ sum_list_with weight (queue m') = 2 * length tcs
  ∧ calls_run m' = l.
Proof.
  intros Hbuf. rewrite step_single. simpl. split; [|split; [done|split; [|done]]].
  - split; simpl; try done.
    + apply Forall_fmap, Forall_true. by intros ?.
    + rewrite Hbuf. simpl. clear. induction tcs as [|tc tcs IH]; [done|].
      simpl. by f_equiv.
    + by rewrite length_map.
  - clear. induction tcs as [|tc tcs IH]; [done|]. simpl in *. lia.
Qed.

(** A whole round, from the reasoning step that requests the calls to
    the point where the next reasoning step is pending. *)
Lemma round_exec sched t w cx l ai tc tcs :
  events_buffer cx = [] →
  reasoning_call w = Return (ai, tc :: tcs) →
  let n := length (tc :: tcs) in
  let w' := set_history w (chat_history w ++ [ai]) in
  let target := map (call_tool_msg w) (tc :: tcs) in
  let m := mkMachine w cx [InputEvent] Running l in
  exec sched 1 t m = mkMachine w' cx [GatherToolsEvent (tc :: tcs)] Running l
  ∧ queue (exec sched 2 t m) = map ToolCallEvent (tc :: tcs)
  ∧ (∀ j, 2 ≤ j ≤ 2 * n + 1 →
       in_round w' n target (exec sched j t m) ∧ queue (exec sched j t m) ≠ [])
  ∧ ∃ msgs log, msgs ≡ₚ target
      ∧ exec sched (2 * n + 2) t m
        = mkMachine (set_history w (chat_history w ++ [ai] ++ msgs))
            (mkContext (Some n) []) [InputEvent] Running log.
Proof.
  intros Hbuf Hcall n w' target m.
  assert (H1 : exec sched 1 t m = mkMachine w' cx [GatherToolsEvent (tc :: tcs)] Running l).
  { simpl. unfold m. rewrite step_single. simpl. unfold chat. by rewrite Hcall. }
  assert (Htarget : target = map (call_tool_msg w') (tc :: tcs)).
  { apply map_ext. intros x. by apply call_tool_msg_config. }
  destruct (dispatch_in_round (sched (S t)) w' cx (tc :: tcs) l Hbuf)
    as (Hir & Hq & Hwt & _).
  rewrite <- Htarget in Hir. fold n in Hir, Hwt.
  assert (H2 : exec sched 2 t m
               = step (sched (S t)) (mkMachine w' cx [GatherToolsEvent (tc :: tcs)] Running l)).
  { change (exec sched 2 t m) with (exec sched 1 (S t) (exec sched 1 t m)).
    by rewrite H1. }
  rewrite <- H2 in Hir, Hq, Hwt.
  assert (Hk : sum_list_with weight (queue (exec sched 2 t m)) = S (2 * n - 1)).
  { rewrite Hwt. unfold n. simpl. lia. }
  destruct (in_round_exec sched w' n target _ (t + 2) _ Hir Hk) as [Hmid Hend].
  assert (Hn1 : 1 ≤ n) by (unfold n; simpl; lia).
  split; [done|]. split; [done|]. split.
  - intros j Hj. replace j with (2 + (j - 2)) by lia.
    rewrite exec_add. destruct (Hmid (j - 2)) as [Hj1 Hj2]; [lia|].
    split; [done|]. intros Hq'. rewrite Hq' in Hj2. unfold n in *. simpl in *. lia.
  - destruct Hend as (msgs & log & Hp & He). exists msgs, log. split; [done|].
    replace (2 * n + 2) with (2 + S (2 * n - 1)) by (unfold n; simpl; lia).
    rewrite exec_add, He. unfold w'. unfold set_history. simpl.
    by rewrite <- (assoc_L (++)).
Qed.

(** *** The phases of a run *)

Lemma step_alone c m ev :
  status m = Running → queue m = [ev] → step c m = deliver ev m [].
Proof.
  destruct m as [w cx q s l]. simpl. intros -> ->. by rewrite step_single.
Qed.

Lemma step_phase c m : phase m → phase (step c m).
Proof.
  intros [message Hs Hq Hb|Hs Hq Hb|tc tcs Hs Hq Hb|n target Hir Hq|r Hs Hq|Hs Hq].
  - rewrite (step_alone _ _ _ Hs Hq). destruct message as [text|]; simpl.
    + by apply ph_reasoning.
    + by apply ph_finished.
  - rewrite (step_alone _ _ _ Hs Hq). simpl. unfold chat.
    destruct (reasoning_call (wf m)) as [[ai [|tc tcs]]| |]; simpl.
    + by eapply ph_stopping.
    + by eapply ph_dispatch.
    + by eapply ph_stopping.
    + by eapply ph_stopping.
  - destruct m as [w cx q s l]. simpl in *. subst.
    destruct (dispatch_in_round c w cx (tc :: tcs) l Hb) as (Hir & Hq & _).
    eapply ph_round.
    + replace (wf (step c _)) with w; [exact Hir|]. by rewrite step_single.
    + by rewrite Hq.
  - pose proof (round_weight_pos _ (ir_events _ _ _ _ Hir) Hq) as Hpos.
    destruct (sum_list_with weight (queue m)) as [|k] eqn:Hk; [lia|].
    destruct (in_round_step c _ _ _ _ _ Hir Hk) as [Hgo Hlast].
    destruct k as [|k].
    + destruct (Hlast eq_refl) as (msgs & _ & ->). by apply ph_reasoning.
    + destruct Hgo as [Hir' Hk']; [done|]. eapply ph_round.
      * replace (wf (step c m)) with (wf m); [exact Hir'|].
        by rewrite (ir_wf _ _ _ _ Hir').
      * intros Hq'. by rewrite Hq' in Hk'.
  - rewrite (step_alone _ _ _ Hs Hq). simpl. by apply ph_finished.
  - rewrite step_finished by done. by apply ph_finished.
Qed.

Lemma exec_phase sched n t m : phase m → phase (exec sched n t m).
Proof.
  revert t m. induction n as [|n IH]; intros t m Hm; simpl; [done|].
  by apply IH, step_phase.
Qed.

Lemma run_phase sched n w message : phase (run sched n w message).
Proof. apply exec_phase. by eapply ph_start. Qed.

(** Whenever a reasoning step is pending, it is the only pending event
    and the results buffer is empty. *)
Lemma phase_reasoning m :
  phase m → InputEvent ∈ queue m →
  m = mkMachine (wf m) (ctx m) [InputEvent] Running (calls_run m)
  ∧ events_buffer (ctx m) = [].
Proof.
  intros [message Hs Hq Hb|Hs Hq Hb|tc tcs Hs Hq Hb|n target Hir Hq|r Hs Hq|Hs Hq] Hin.
  - rewrite Hq in Hin. apply list_elem_of_singleton in Hin. done.
  - destruct m. simpl in *. by subst.
  - rewrite Hq in Hin. apply list_elem_of_singleton in Hin. done.
  - pose proof (ir_events _ _ _ _ Hir) as Hev.
    rewrite Forall_forall in Hev. by apply Hev in Hin.
  - rewrite Hq in Hin. apply list_elem_of_singleton in Hin. done.
  - rewrite Hq in Hin. by apply not_elem_of_nil in Hin.
Qed.

(** *** The end of a turn *)

Lemma exec_stop sched t w cx l result n :
  1 ≤ n →
  exec sched n t (mkMachine w cx [StopEvent result] Running l)
  = mkMachine w cx [] (Returned result) l.
Proof.
  intros Hn. destruct n as [|n]; [lia|]. simpl. rewrite step_single. simpl.
  by apply exec_finished.
Qed.

(** A reasoning step that requests no tool ends the run two deliveries
    later with the event [chat] returned. *)
Lemma reasoning_stops sched t w cx l w' result n :
  chat w = (w', StopEvent result) → 2 ≤ n →
  exec sched n t (mkMachine w cx [InputEvent] Running l)
  = mkMachine w' cx [] (Returned result) l.
Proof.
  intros Hchat Hn. destruct n as [|n]; [lia|]. simpl. rewrite step_single.
  simpl. rewrite Hchat. simpl. apply exec_stop. lia.
Qed.

Lemma tool_count_app h1 h2 : tool_count (h1 ++ h2) = tool_count h1 + tool_count h2.
Proof. unfold tool_count. by rewrite filter_app, length_app. Qed.



(** ** The preparation step *)

Lemma prepare_chat_prepared w text :
  prepare_chat w (Some text) = inr (prepared w text, InputEvent).
Proof. unfold prepared. done. Qed.

Lemma prepared_history w text :
  chat_history (prepared w text)
  = match chat_history w with [] => [system_msg] | _ :: _ => chat_history w end
    ++ [user_msg text].
Proof. unfold prepared. simpl. by destruct (chat_history w). Qed.

Lemma prepared_set_history w text :
  prepared w text = set_history w (chat_history (prepared w text)).
Proof. done. Qed.

Lemma run_prepare sched n w text :
  run sched (S n) w (Some text)
  = exec sched n 1 (mkMachine (prepared w text) fresh_context [InputEvent] Running []).
Proof. unfold run, start. simpl. by rewrite step_single. Qed.

(** C8: on an empty history the preparation step puts the fixed system
    message first (it names the domain of each tool, the one-call rule
    and the splitting of mixed queries) and then the query as a user
    message; on a non-empty history it appends the user message and
    nothing else. *)
Theorem prepare_chat_system_then_user (w : Workflow) (text : string)
    (m0 : ChatMessage) (h : list ChatMessage) :
  prepare_chat (set_history w []) (Some text)
    = inr (set_history w [system_msg; user_msg text], InputEvent)
  ∧ prepare_chat (set_history w (m0 :: h)) (Some text)
    = inr (set_history w (m0 :: h ++ [user_msg text]), InputEvent)
  ∧ role system_msg = system
  ∧ role (user_msg text) = user ∧ content (user_msg text) = text
  ∧ Forall (λ p, mentions p (content system_msg) = true) guideline_phrases.
Proof.
  repeat split.
  repeat (constructor; [vm_compute; reflexivity|]). constructor.
Qed.

(** ** Truncation before a turn *)

Lemma truncate_history_short w :
  length (chat_history w) ≤ 20 → truncate_history w = w.
Proof. intros H. unfold truncate_history. case_decide; [lia|done]. Qed.

(** C7: when the history is longer than 20 messages, [process_query]
    keeps of it at most its leading system message, and the preparation
    step then appends the new user message: the turn starts from a system
    message followed by the query, everything else is gone. *)
Theorem truncation_keeps_leading_system (sched : nat → nat) (w : Workflow)
    (text : string) :
  20 < length (chat_history w) →
  let w' := truncate_history w in
  chat_history w' = filter (λ x, role x = system) (take 1 (chat_history w))
  ∧ length (chat_history w') ≤ 1
  ∧ ∃ s, role s = system
      ∧ (chat_history w' = [s] ∨ (chat_history w' = [] ∧ s = system_msg))
      ∧ process_query_run sched 1 w text
        = mkMachine (set_history w [s; user_msg text]) fresh_context
            [InputEvent] Running [].
Proof.
  intros Hlen w'. unfold process_query_run. fold w'. rewrite run_prepare. simpl.
  unfold w', truncate_history. case_decide; [|lia].
  destruct (chat_history w) as [|m0 rest] eqn:Hh; [simpl in Hlen; lia|].
  simpl. case_decide as Hrole.
  - rewrite filter_cons_True by done. simpl. repeat split; [lia|].
    exists m0. split; [done|]. split; [by left|]. done.
  - rewrite filter_cons_False by done. simpl. repeat split; [lia|].
    exists system_msg. split; [done|]. split; [by right|]. done.
Qed.

Lemma truncation_keeps_leading_system_witness :
  let w := set_history Demo.seasoned (replicate 21 system_msg) in
  20 < length (chat_history w)
  ∧ chat_history (truncate_history w) = [system_msg]
  ∧ ∃ s, process_query_run Demo.fifo 1 w "next"
         = mkMachine (set_history w [s; user_msg "next"]) fresh_context
             [InputEvent] Running [].
Proof.
  intros w. split; [simpl; lia|]. split; [reflexivity|].
  destruct (truncation_keeps_leading_system Demo.fifo w "next")
    as (_ & _ & s & _ & _ & H).
  - simpl. lia.
  - by exists s.
Defined.

(** ** Turns that end at the first reasoning step *)

Lemma tool_count_prepared w text :
  tool_count (chat_history (prepared w text)) = tool_count (chat_history w).
Proof.
  rewrite prepared_history.
  destruct (chat_history w) as [|x l]; [reflexivity|].
  rewrite tool_count_app. change (tool_count [user_msg text]) with 0. lia.
Qed.

Lemma run_first_stop sched w text w' result n :
  chat (prepared w text) = (w', StopEvent result) → 3 ≤ n →
  run sched n w (Some text) = mkMachine w' fresh_context [] (Returned result) [].
Proof.
  intros Hchat Hn. destruct n as [|n]; [lia|].
  rewrite run_prepare. eapply reasoning_stops; [done|lia].
Qed.

Lemma run_first_steps_no_call sched w text w' result j :
  chat (prepared w text) = (w', StopEvent result) →
  calls_run (run sched j w (Some text)) = [].
Proof.
  intros Hchat. destruct (decide (3 ≤ j)) as [Hj|Hj].
  - by erewrite run_first_stop.
  - destruct j as [|[|j]]; [done|done|].
    rewrite run_prepare. simpl. rewrite step_single. simpl. rewrite Hchat.
    simpl. destruct j as [|j]; [done|lia].
Qed.

(** C5: when the reasoning call raises, [run] returns the fixed apology,
    [call_tool] is never entered (no adapter is invoked) and the history
    stays as the preparation step left it: no tool message is added. *)
Theorem reasoning_failure_apology (sched : nat → nat) (w : Workflow)
    (text : string) (e : PyException) (n : nat) :
  reasoning_call (prepared w text) = Raise e → 3 ≤ n →
  let m := run sched n w (Some text) in
  status m = Returned chat_apology_text
  ∧ (∀ j, calls_run (run sched j w (Some text)) = [])
  ∧ chat_history (wf m) = chat_history (prepared w text)
  ∧ tool_count (chat_history (wf m)) = tool_count (chat_history w).
Proof.
  intros Hcall Hn m.
  assert (Hchat : chat (prepared w text)
                  = (prepared w text, StopEvent chat_apology_text)).
  { unfold chat. by rewrite Hcall. }
  unfold m. rewrite (run_first_stop _ _ _ _ _ _ Hchat Hn). simpl.
  split; [done|]. split; [|split; [done|apply tool_count_prepared]].
  intros j. by eapply run_first_steps_no_call.
Qed.

Lemma reasoning_failure_apology_witness :
  let w := Demo.fresh Demo.llm_down in
  reasoning_call (prepared w "Who is Paula?") = Raise (Exception "rate limited")
  ∧ status (run Demo.staggered 5 w (Some "Who is Paula?")) = Returned chat_apology_text
  ∧ calls_run (run Demo.staggered 5 w (Some "Who is Paula?")) = [].
Proof.
  intros w. split; [reflexivity|].
  destruct (reasoning_failure_apology Demo.staggered w "Who is Paula?"
              (Exception "rate limited") 5) as (H1 & H2 & _).
  - reflexivity.
  - lia.
  - split; [exact H1|apply H2].
Defined.

(** C3 (as the code has it): when the reasoning client requests no tool,
    [run] returns the content of the assistant message as it is, and the
    history is the one from before the run followed by the system message
    (only when that history was empty), the user message and the
    assistant message.  It is exactly system, user, assistant when the
    history before the run was empty or a lone system message. *)
Theorem direct_answer_appends_turn (sched : nat → nat) (w : Workflow)
    (text : string) (ai : ChatMessage) (n : nat) :
  reasoning_call (prepared w text) = Return (ai, []) → 3 ≤ n →
  let m := run sched n w (Some text) in
  status m = Returned (content ai)
  ∧ chat_history (wf m)
    = chat_history w
      ++ match chat_history w with [] => [system_msg] | _ :: _ => [] end
      ++ [user_msg text; ai]
  ∧ (length (chat_history w) ≤ 1 →
     Forall (λ x, role x = system) (chat_history w) →
     direct_answer_history text ai (chat_history (wf m))).
Proof.
  intros Hcall Hn m.
  assert (Hchat : chat (prepared w text)
                  = (set_history (prepared w text)
                       (chat_history (prepared w text) ++ [ai]),
                     StopEvent (content ai))).
  { unfold chat. by rewrite Hcall. }
  unfold m. rewrite (run_first_stop _ _ _ _ _ _ Hchat Hn). simpl.
  split; [done|].
  destruct (chat_history w) as [|s [|s' rest]] eqn:Hh; simpl.
  - split; [done|]. intros _ _. right. by exists system_msg.
  - split; [done|]. intros _ Hsys. right. exists s.
    by apply Forall_cons in Hsys as [? _].
  - split; [by rewrite <- (assoc_L (++))|]. intros Hlen. simpl in Hlen. lia.
Qed.

Lemma direct_answer_appends_turn_witness :
  let w := Demo.fresh Demo.llm_direct in
  reasoning_call (prepared w "Hi") = Return (Demo.ai_msg "Hello!", [])
  ∧ status (run Demo.fifo 3 w (Some "Hi")) = Returned "Hello!"
  ∧ chat_history (wf (run Demo.fifo 3 w (Some "Hi")))
    = [system_msg; user_msg "Hi"; Demo.ai_msg "Hello!"].
Proof.
  intros w. split; [reflexivity|].
  destruct (direct_answer_appends_turn Demo.fifo w "Hi" (Demo.ai_msg "Hello!") 3)
    as (H1 & H2 & _).
  - reflexivity.
  - lia.
  - split; [exact H1|exact H2].
Defined.

(** C3 as stated fails on a session that is not fresh: the second direct
    answer of a session leaves five messages in the history. *)
Lemma direct_answer_keeps_earlier_turns :
  let m := run Demo.fifo 3 Demo.seasoned (Some "Bye") in
  reasoning_call (prepared Demo.seasoned "Bye") = Return (Demo.ai_msg "Hello!", [])
  ∧ status m = Returned "Hello!"
  ∧ chat_history (wf m)
    = [system_msg; user_msg "Hi"; Demo.ai_msg "Hello!";
       user_msg "Bye"; Demo.ai_msg "Hello!"]
  ∧ ¬ direct_answer_history "Bye" (Demo.ai_msg "Hello!") (chat_history (wf m)).
Proof.
  intros m. split; [reflexivity|]. split; [reflexivity|]. split; [reflexivity|].
  intros [H|(s & _ & H)]; apply (f_equal length) in H; discriminate H.
Qed.

(** ** What leaves [run] *)

Lemma run_without_message sched w n :
  1 ≤ n →
  status (run sched n w None) = Raised (ValueError "'message' field is required.").
Proof.
  intros Hn. destruct n as [|n]; [lia|]. unfold run, start. simpl.
  rewrite step_single. simpl. by rewrite exec_finished.
Qed.

Lemma run_with_message_safe sched w text n e :
  status (run sched n w (Some text)) ≠ Raised e.
Proof.
  destruct n as [|n]; [done|]. rewrite run_prepare.
  apply exec_safe. split; [done|]. simpl.
  apply Forall_cons. split; [by intros ?|apply Forall_nil_2].
Qed.




(** ** Rounds of tool calls inside a run *)

Lemma run_add sched n0 j w message :
  run sched (n0 + j) w message = exec sched j n0 (run sched n0 w message).
Proof. unfold run. by rewrite exec_add. Qed.

Lemma run_reasoning_state sched n w message :
  let m := run sched n w message in
  InputEvent ∈ queue m →
  m = mkMachine (wf m) (ctx m) [InputEvent] Running (calls_run m)
  ∧ events_buffer (ctx m) = [] ∧ config (wf m) = config w.
Proof.
  intros m Hin. destruct (phase_reasoning m) as [Hm Hb]; [apply run_phase|done|].
  split; [done|]. split; [done|]. apply exec_config.
Qed.

(** From any point of a run where a reasoning step is pending and
    requests calls: the shape of the run until the next reasoning step
    is pending. *)
Lemma run_round sched n0 w message ai tc tcs :
  let m := run sched n0 w message in
  let n := length (tc :: tcs) in
  let target := map (call_tool_msg w) (tc :: tcs) in
  let w' := set_history (wf m) (chat_history (wf m) ++ [ai]) in
  InputEvent ∈ queue m →
  reasoning_call (wf m) = Return (ai, tc :: tcs) →
  run sched (n0 + 1) w message
    = mkMachine w' (ctx m) [GatherToolsEvent (tc :: tcs)] Running (calls_run m)
  ∧ queue (run sched (n0 + 2) w message) = map ToolCallEvent (tc :: tcs)
  ∧ (∀ j, 2 ≤ j ≤ 2 * n + 1 →
       in_round w' n target (run sched (n0 + j) w message)
       ∧ queue (run sched (n0 + j) w message) ≠ [])
  ∧ ∃ msgs log, msgs ≡ₚ target
      ∧ run sched (n0 + (2 * n + 2)) w message
        = mkMachine (set_history (wf m) (chat_history (wf m) ++ [ai] ++ msgs))
            (mkContext (Some n) []) [InputEvent] Running log.
Proof.
  intros m n target w' Hin Hcall.
  destruct (run_reasoning_state sched n0 w message Hin) as (Hm & Hb & Hcfg).
  fold m in Hm, Hb, Hcfg.
  destruct (round_exec sched (0 + n0) (wf m) (ctx m) (calls_run m) ai tc tcs Hb Hcall)
    as (H1 & H2 & Hmid & Hend).
  rewrite <- Hm in H1, H2, Hmid, Hend.
  assert (Ht : map (call_tool_msg (wf m)) (tc :: tcs) = target).
  { apply map_ext. intros x. by apply call_tool_msg_config. }
  rewrite Ht in Hmid, Hend.
  rewrite !run_add. fold m.
  split; [done|]. split; [done|]. split.
  - intros j Hj. rewrite run_add. by apply Hmid.
  - destruct Hend as (msgs & log & Hp & He). exists msgs, log.
    by split.
Qed.

Lemma in_round_no_input w n target m : in_round w n target m → InputEvent ∉ queue m.
Proof.
  intros Hir Hin. pose proof (ir_events _ _ _ _ Hir) as Hev.
  rewrite Forall_forall in Hev. by apply Hev in Hin.
Qed.

Lemma results_are_tool_messages w tcs msgs :
  msgs ≡ₚ map (call_tool_msg w) tcs → Forall (λ x, role x = tool) msgs.
Proof.
  intros Hp. rewrite Hp. apply Forall_fmap, Forall_true.
  intros c. apply call_tool_msg_role.
Qed.

(** C2: in a round in which the reasoning step requests [n >= 1] calls,
    [dispatch_calls] stores [n] as the count and sends [n] call events;
    until the [n]-th result has reached [gather] the history is the one
    the reasoning step left, fewer than [n] results are buffered and no
    reasoning step is pending; and when the next reasoning step is
    pending, exactly [n] tool messages (those of the [n] calls, in the
    order of completion) have been appended. *)
Theorem round_gathers_all_results (sched : nat → nat) (n0 : nat)
    (w : Workflow) (message : option string) (ai : ChatMessage)
    (tc : ToolSelection) (tcs : list ToolSelection) :
  let m := run sched n0 w message in
  let n := length (tc :: tcs) in
  InputEvent ∈ queue m →
  reasoning_call (wf m) = Return (ai, tc :: tcs) →
  num_tool_calls (ctx (run sched (n0 + 2) w message)) = Some n
  ∧ queue (run sched (n0 + 2) w message) = map ToolCallEvent (tc :: tcs)
  ∧ (∀ j, 1 ≤ j ≤ 2 * n + 1 →
       let mj := run sched (n0 + j) w message in
       status mj = Running
       ∧ (InputEvent ∉ queue mj)
       ∧ chat_history (wf mj) = chat_history (wf m) ++ [ai]
       ∧ (2 ≤ j →
          num_tool_calls (ctx mj) = Some n
          ∧ length (events_buffer (ctx mj)) < n
          ∧ length (events_buffer (ctx mj)) + length (queue mj) = n))
  ∧ ∃ msgs,
      let m' := run sched (n0 + (2 * n + 2)) w message in
      length msgs = n
      ∧ Forall (λ x, role x = tool) msgs
      ∧ msgs ≡ₚ map (call_tool_msg w) (tc :: tcs)
      ∧ chat_history (wf m') = chat_history (wf m) ++ [ai] ++ msgs
      ∧ queue m' = [InputEvent] ∧ status m' = Running
      ∧ events_buffer (ctx m') = [] ∧ num_tool_calls (ctx m') = Some n.
Proof.
  intros m n Hin Hcall.
  destruct (run_round sched n0 w message ai tc tcs Hin Hcall)
    as (H1 & H2 & Hmid & msgs & log & Hp & Hend).
  fold m in H1, Hmid, Hend. fold n in Hmid, Hend.
  assert (Hn1 : 1 ≤ n) by (unfold n; simpl; lia).
  split; [|split; [done|split]].
  - destruct (Hmid 2) as [Hir _]; [lia|]. apply (ir_num _ _ _ _ Hir).
  - intros j Hj mj. destruct (decide (j = 1)) as [->|Hj1].
    + unfold mj. rewrite H1. simpl. split; [done|]. split; [|split; [done|lia]].
      intros Hi. apply list_elem_of_singleton in Hi. done.
    + destruct (Hmid j) as [Hir Hq]; [lia|]. fold mj in Hir, Hq.
      pose proof (in_round_buffer _ _ _ _ Hir) as Hlen.
      split; [apply (ir_status _ _ _ _ Hir)|].
      split; [by eapply in_round_no_input|].
      split; [by rewrite (ir_wf _ _ _ _ Hir)|]. intros _.
      split; [apply (ir_num _ _ _ _ Hir)|]. split; [|done].
      destruct (queue mj); [done|]. simpl in Hlen. lia.
  - exists msgs. intros m'. unfold m'. rewrite Hend. simpl.
    split; [by rewrite (Permutation_length Hp), length_map|].
    split; [by eapply results_are_tool_messages|]. done.
Qed.

Lemma round_gathers_all_results_witness :
  let w := Demo.fresh (Demo.llm_calls [Demo.call_sql; Demo.call_doc; Demo.call_slow]) in
  let m := run Demo.staggered 1 w (Some "Hi") in
  InputEvent ∈ queue m
  ∧ num_tool_calls (ctx (run Demo.staggered (1 + 2) w (Some "Hi"))) = Some 3
  ∧ map role (chat_history (wf (run Demo.staggered (1 + 8) w (Some "Hi"))))
    = [system; user; assistant; tool; tool; tool].
Proof.
  intros w m.
  assert (Hin : InputEvent ∈ queue m) by (vm_compute; left).
  split; [exact Hin|].
  destruct (round_gathers_all_results Demo.staggered 1 w (Some "Hi") (Demo.ai_msg "")
              Demo.call_sql [Demo.call_doc; Demo.call_slow] Hin eq_refl)
    as (Hnum & _).
  split; [exact Hnum|reflexivity].
Defined.

(** *** What a call contributes to its round *)

Lemma call_tool_msg_return w c text :
  invoke_tool w c = Return text → call_tool_msg w c = tool_message c text.
Proof. unfold call_tool_msg. by intros ->. Qed.

Lemma call_tool_msg_raise w c t e :
  tools_dict w !! tool_name c = Some t → acall t (tool_kwargs c) = Raise e →
  call_tool_msg w c = tool_message c (tool_error_text c e).
Proof. unfold call_tool_msg, invoke_tool. by intros -> ->. Qed.


Lemma call_tool_msg_missing w c :
  tools_dict w !! tool_name c = None →
  call_tool_msg w c = tool_message c (tool_error_text c (KeyError (tool_name c))).
Proof. unfold call_tool_msg, invoke_tool. by intros ->. Qed.

(** The message of a call depends on the catalog entry of its own tool
    only. *)
Lemma call_tool_msg_local w w2 c :
  tools_dict w2 !! tool_name c = tools_dict w !! tool_name c →
  call_tool_msg w2 c = call_tool_msg w c.
Proof. unfold call_tool_msg, invoke_tool. by intros ->. Qed.

(** Every call of a round has its message folded into the history, and
    the run is still going when the next reasoning step is pending. *)
Lemma run_round_folds sched n0 w message ai tc tcs :
  let m := run sched n0 w message in
  let n := length (tc :: tcs) in
  InputEvent ∈ queue m →
  reasoning_call (wf m) = Return (ai, tc :: tcs) →
  (∀ j, j ≤ 2 * n + 2 → status (run sched (n0 + j) w message) = Running)
  ∧ ∃ msgs,
      let m' := run sched (n0 + (2 * n + 2)) w message in
      queue m' = [InputEvent]
      ∧ chat_history (wf m') = chat_history (wf m) ++ [ai] ++ msgs
      ∧ length msgs = n
      ∧ Forall (λ x, role x = tool) msgs
      ∧ ∀ c, c ∈ tc :: tcs → call_tool_msg w c ∈ msgs.
Proof.
  intros m n Hin Hcall.
  destruct (run_round sched n0 w message ai tc tcs Hin Hcall)
    as (H1 & _ & Hmid & msgs & log & Hp & Hend).
  fold m in H1, Hmid, Hend. fold n in Hmid, Hend.
  assert (Hn1 : 1 ≤ n) by (unfold n; simpl; lia).
  split.
  - intros j Hj. destruct (decide (j = 0)) as [->|Hj0].
    { rewrite Nat.add_0_r.
      destruct (run_reasoning_state sched n0 w message Hin) as (Hm & _).
      fold m in Hm |- *. by rewrite Hm. }
    destruct (decide (j = 1)) as [->|Hj1]; [by rewrite H1|].
    destruct (decide (j = 2 * n + 2)) as [->|Hjn]; [by rewrite Hend|].
    destruct (Hmid j) as [Hir _]; [lia|]. apply (ir_status _ _ _ _ Hir).
  - exists msgs. intros m'. unfold m'. rewrite Hend. simpl.
    split; [done|]. split; [done|].
    split; [by rewrite (Permutation_length Hp), length_map|].
    split; [by eapply results_are_tool_messages|].
    intros c Hc. rewrite Hp. by apply list_elem_of_fmap_2.
Qed.

(** C4: in a round of several calls, a call whose adapter raises gets a
    result of its own whose content carries the error text; the round is
    not aborted; the results of the sibling calls are folded into the
    history as their own adapters produced them (a sibling's message
    depends on the catalog entry of its own tool only); and the failed
    call's message is folded with them. *)
Theorem failing_call_is_isolated (sched : nat → nat) (n0 : nat)
    (w : Workflow) (message : option string) (ai : ChatMessage)
    (tc : ToolSelection) (tcs : list ToolSelection)
    (bad : ToolSelection) (t : BaseTool) (e : PyException) :
  let m := run sched n0 w message in
  let n := length (tc :: tcs) in
  InputEvent ∈ queue m →
  reasoning_call (wf m) = Return (ai, tc :: tcs) →
  bad ∈ tc :: tcs →
  tools_dict w !! tool_name bad = Some t →
  acall t (tool_kwargs bad) = Raise e →
  call_tool w bad
    = ToolCallEventResult
        (tool_message bad ("Error executing " +:+ tool_name bad +:+ ": " +:+ str_exc e))
  ∧ (∀ j, j ≤ 2 * n + 2 → status (run sched (n0 + j) w message) = Running)
  ∧ (∀ sib w2, tools_dict w2 !! tool_name sib = tools_dict w !! tool_name sib →
       call_tool w2 sib = call_tool w sib)
  ∧ ∃ msgs,
      let m' := run sched (n0 + (2 * n + 2)) w message in
      queue m' = [InputEvent]
      ∧ chat_history (wf m') = chat_history (wf m) ++ [ai] ++ msgs
      ∧ length msgs = n
      ∧ tool_message bad ("Error executing " +:+ tool_name bad +:+ ": " +:+ str_exc e)
        ∈ msgs
      ∧ ∀ sib text, sib ∈ tc :: tcs → invoke_tool w sib = Return text →
          tool_message sib text ∈ msgs.
Proof.
  intros m n Hin Hcall Hbad Ht He.
  destruct (run_round_folds sched n0 w message ai tc tcs Hin Hcall)
    as (Hrun & msgs & Hq & Hh & Hlen & _ & Hall).
  pose proof (call_tool_msg_raise w bad t e Ht He) as Hmsg.
  unfold tool_error_text in Hmsg.
  split; [unfold call_tool; by rewrite Hmsg|]. split; [done|].
  split; [intros sib w2 Hd; unfold call_tool; by rewrite (call_tool_msg_local w w2 sib Hd)|].
  exists msgs. split; [done|]. split; [done|]. split; [done|]. split.
  - rewrite <- Hmsg. by apply Hall.
  - intros sib text Hsib Hret. rewrite <- (call_tool_msg_return w sib text Hret).
    by apply Hall.
Qed.

Lemma failing_call_is_isolated_witness :
  let w := Demo.fresh (Demo.llm_calls [Demo.call_sql; Demo.call_doc]) in
  let m' := run Demo.staggered (1 + 6) w (Some "Hi") in
  acall Demo.document_tool (tool_kwargs Demo.call_doc) = Raise (Exception "index offline")
  ∧ status m' = Running
  ∧ map content (chat_history (wf m'))
    = [system_prompt; "Hi"; ""; "1990-04-12";
       "Error executing document_tool: index offline"].
Proof.
  intros w m'. split; [reflexivity|].
  assert (Hin : InputEvent ∈ queue (run Demo.staggered 1 w (Some "Hi")))
    by (vm_compute; left).
  assert (Hbad : Demo.call_doc ∈ [Demo.call_sql; Demo.call_doc])
    by (right; left).
  destruct (failing_call_is_isolated Demo.staggered 1 w (Some "Hi") (Demo.ai_msg "")
              Demo.call_sql [Demo.call_doc] Demo.call_doc Demo.document_tool
              (Exception "index offline") Hin eq_refl Hbad eq_refl eq_refl)
    as (_ & Hrun & _).
  split; [apply (Hrun 6); simpl; lia|reflexivity].
Defined.



(** C10: a call whose tool name is not a key of the catalog does not
    stop the run: the [KeyError] of the lookup is caught in [call_tool]
    and becomes a tool message whose content is the error text, and that
    message is folded into the history with the others of its round. *)
Theorem unknown_tool_becomes_error_message (sched : nat → nat) (n0 : nat)
    (w : Workflow) (message : option string) (ai : ChatMessage)
    (tc : ToolSelection) (tcs : list ToolSelection) (c : ToolSelection) :
  let m := run sched n0 w message in
  let n := length (tc :: tcs) in
  let err := tool_message c ("Error executing " +:+ tool_name c +:+ ": "
                             +:+ PyText.repr (tool_name c)) in
  InputEvent ∈ queue m →
  reasoning_call (wf m) = Return (ai, tc :: tcs) →
  c ∈ tc :: tcs →
  tools_dict w !! tool_name c = None →
  call_tool w c = ToolCallEventResult err
  ∧ role err = tool
  ∧ (∀ j, j ≤ 2 * n + 2 → status (run sched (n0 + j) w message) = Running)
  ∧ ∃ msgs,
      let m' := run sched (n0 + (2 * n + 2)) w message in
      queue m' = [InputEvent]
      ∧ chat_history (wf m') = chat_history (wf m) ++ [ai] ++ msgs
      ∧ length msgs = n
      ∧ err ∈ msgs.
Proof.
  intros m n err Hin Hcall Hc Hnone.
  destruct (run_round_folds sched n0 w message ai tc tcs Hin Hcall)
    as (Hrun & msgs & Hq & Hh & Hlen & _ & Hall).
  pose proof (call_tool_msg_missing w c Hnone) as Hmsg.
  change (tool_message c (tool_error_text c (KeyError (tool_name c)))) with err in Hmsg.
  split; [unfold call_tool; by rewrite Hmsg|]. split; [done|]. split; [done|].
  exists msgs. split; [done|]. split; [done|]. split; [done|].
  rewrite <- Hmsg. by apply Hall.
Qed.

Lemma unknown_tool_becomes_error_message_witness :
  let w := Demo.fresh (Demo.llm_calls [Demo.call_web; Demo.call_sql]) in
  let m' := run Demo.fifo (1 + 6) w (Some "Hi") in
  tools_dict w !! tool_name Demo.call_web = None
  ∧ status m' = Running
  ∧ map content (chat_history (wf m'))
    = [system_prompt; "Hi"; "";
       "Error executing web_tool: 'web_tool'"; "1990-04-12"].
Proof.
  intros w m'. split; [reflexivity|].
  assert (Hin : InputEvent ∈ queue (run Demo.fifo 1 w (Some "Hi")))
    by (vm_compute; left).
  assert (Hc : Demo.call_web ∈ [Demo.call_web; Demo.call_sql]) by left.
  destruct (unknown_tool_becomes_error_message Demo.fifo 1 w (Some "Hi")
              (Demo.ai_msg "") Demo.call_web [Demo.call_sql] Demo.call_web
              Hin eq_refl Hc eq_refl)
    as (_ & _ & Hrun & _).
  split; [apply (Hrun 6); simpl; lia|reflexivity].
Defined.

(** ** Repeating a query after a reset *)




Lemma config_set_history w w' :
  config w' = config w → w' = set_history w (chat_history w').
Proof.
  destruct w', w. unfold config, set_history. simpl. by intros [= -> -> ->].
Qed.

Lemma step_narrow_any c c' w m : narrow w m → step c m = step c' m.
Proof.
  intros (Hlen & _ & _). unfold step. destruct (status m); try done.
  destruct (queue m) as [|ev [|ev' q]].
  - by rewrite !lookup_nil.
  - cbn [length]. by rewrite !Nat.mod_1_r.
  - simpl in Hlen. lia.
Qed.

Lemma step_narrow c w m : single_call w → narrow w m → narrow w (step c m).
Proof.
  intros Hsingle Hn. pose proof Hn as (Hlen & Hcfg & Hg).
  destruct (status m) eqn:Hs; [|by rewrite step_finished by (by rewrite Hs)..].
  destruct (queue m) as [|ev [|ev' q]] eqn:Hq; simpl in Hlen; [|clear Hlen|lia].
  { unfold step. by rewrite Hs, Hq, lookup_nil. }
  rewrite (step_alone _ _ _ Hs Hq).
  destruct ev as [[text|]| |calls|call|msg|result]; simpl.
  - split; [simpl; lia|]. split; [done|]. simpl. intros tcs Hin.
    apply list_elem_of_singleton in Hin. done.
  - split; [simpl; lia|]. split; [done|]. simpl. intros tcs Hin.
    by apply not_elem_of_nil in Hin.
  - pose proof (chat_config (wf m)) as Hc. unfold chat in *.
    destruct (reasoning_call (wf m)) as [[ai [|tc tcs]]| |] eqn:Hcall; simpl in *.
    all: split; [simpl; lia|]; split; [exact Hcfg|]; simpl; intros calls Hin.
    all: apply list_elem_of_singleton in Hin; try done.
    injection Hin as ->. rewrite (config_set_history w (wf m) Hcfg) in Hcall.
    by eapply Hsingle.
  - assert (length calls ≤ 1) as Hcalls by (apply Hg; left).
    split; [simpl; by rewrite length_map|]. split; [done|]. simpl.
    intros tcs Hin. apply list_elem_of_fmap in Hin as (? & ? & _). done.
  - split; [simpl; lia|]. split; [done|]. simpl. intros tcs Hin.
    apply list_elem_of_singleton in Hin. done.
  - pose proof (gather_config (wf m) (ctx m) msg) as Hc. unfold gather in *.
    destruct (num_tool_calls (ctx m)) as [n|]; simpl in *.
    + destruct (collect_events (ctx m) msg n) as [cx' [[|m0 buf]|]]; simpl in *.
      all: split; [simpl; lia|]; split; [exact Hcfg|]; simpl; intros tcs Hin.
      all: try (by apply not_elem_of_nil in Hin).
      apply list_elem_of_singleton in Hin. done.
    + split; [simpl; lia|]. split; [done|]. simpl. intros tcs Hin.
      apply list_elem_of_singleton in Hin. done.
  - split; [simpl; lia|]. split; [done|]. simpl. intros tcs Hin.
    by apply not_elem_of_nil in Hin.
Qed.

Lemma exec_narrow_any sched sched' n w : single_call w → ∀ t t' m,
  narrow w m → exec sched n t m = exec sched' n t' m.
Proof.
  intros Hsingle. induction n as [|n IH]; intros t t' m Hm; simpl; [done|].
  rewrite (step_narrow_any (sched t) (sched' t') w m Hm).
  apply IH. by apply step_narrow.
Qed.

(** With a reasoning client that requests at most one call per reply,
    the order of deliveries does not matter. *)
Lemma run_single_call_any_schedule sched sched' n w message :
  single_call w → run sched n w message = run sched' n w message.
Proof.
  intros Hsingle. unfold run. apply (exec_narrow_any _ _ _ w Hsingle).
  split; [simpl; lia|]. split; [done|]. simpl. intros tcs Hin.
  apply list_elem_of_singleton in Hin. done.
Qed.




(** [run_query] returns a text exactly when the run after the reset
    has returned it: its [except] branch is never taken. *)
Lemma run_query_text sched n w query result :
  run_query sched n w query = Some result
  ↔ status (reset_then_run sched n w query) = Returned result.
Proof.
  unfold run_query. pose proof (run_with_message_safe sched (reset w) query n) as Hsafe.
  fold (reset_then_run sched n w query) in Hsafe.
  destruct (status (reset_then_run sched n w query)) as [|r|e].
  - split; intros; discriminate.
  - split; intros [= ->]; done.
  - by destruct (Hsafe e).
Qed.

(** ** Further facts on failures and termination *)

(** A reasoning call that is cancelled (not an [Exception]) ends the run
    with the other fixed text of [chat]. *)
Lemma reasoning_cancelled_text sched w text n :
  reasoning_call (prepared w text) = CancelledError → 3 ≤ n →
  run sched n w (Some text)
  = mkMachine (prepared w text) fresh_context [] (Returned chat_cancelled_text) [].
Proof.
  intros Hcall Hn. apply run_first_stop; [|done]. unfold chat. by rewrite Hcall.
Qed.

(** The same at any later reasoning step of a run: the run ends two
    deliveries later with the apology, the history and the calls run so
    far are as they were. *)
Lemma reasoning_failure_at_any_round sched n0 w message e j :
  let m := run sched n0 w message in
  InputEvent ∈ queue m → reasoning_call (wf m) = Raise e → 2 ≤ j →
  run sched (n0 + j) w message
  = mkMachine (wf m) (ctx m) [] (Returned chat_apology_text) (calls_run m).
Proof.
  intros m Hin Hcall Hj.
  destruct (run_reasoning_state sched n0 w message Hin) as (Hm & _).
  fold m in Hm. rewrite run_add. fold m. rewrite Hm at 1.
  apply reasoning_stops; [|done]. unfold chat. by rewrite Hcall.
Qed.

Lemma tool_call_events_round tcs ev :
  ev ∈ map ToolCallEvent tcs → round_event ev.
Proof. intros Hin. apply list_elem_of_fmap in Hin as (? & -> & _). done. Qed.



(** ** The catalog of a constructed workflow *)

Lemma catalog_lookup ts nm :
  foldl (λ d t, <[metadata_name t := t]> d) (∅ : gmap string BaseTool) ts !! nm
  = last (filter (λ t, metadata_name t = nm) ts).
Proof.
  induction ts as [|t ts IH] using rev_ind; [done|].
  rewrite foldl_snoc, filter_app, lookup_insert.
  destruct (decide (metadata_name t = nm)) as [Hnm|Hnm].
  - rewrite filter_cons_True by done. by rewrite filter_nil, last_snoc.
  - rewrite filter_cons_False by done. by rewrite filter_nil, app_nil_r.
Qed.

(** X1: in a workflow that was constructed, a name is looked up to the
    last tool of the list that carries it, and is no key exactly when no
    tool carries it. *)
Theorem constructed_catalog_lookup (ts : list BaseTool)
    (llm_arg settings_llm : option LLM) (history : option (list ChatMessage))
    (w : Workflow) (nm : string) :
  construct ts llm_arg settings_llm history = inr w →
  tools_dict w !! nm = last (filter (λ t, metadata_name t = nm) ts)
  ∧ (tools_dict w !! nm = None ↔ ∀ t, t ∈ ts → metadata_name t ≠ nm)
  ∧ (∀ t, tools_dict w !! nm = Some t → t ∈ ts ∧ metadata_name t = nm).
Proof.
  intros Hw. unfold construct in Hw.
  destruct (match llm_arg with Some l => Some l | None => settings_llm end)
    as [l|]; [|done].
  injection Hw as <-. simpl.
  pose proof (catalog_lookup ts nm) as Hl.
  split; [done|]. split.
  - rewrite Hl, last_None. split.
    + intros Hnil t Ht Hnm. by apply (filter_nil_not_elem_of _ _ t Hnil Hnm).
    + intros Hno.
      destruct (filter (λ t, metadata_name t = nm) ts) as [|t l'] eqn:Hf; [done|].
      assert (t ∈ filter (λ t, metadata_name t = nm) ts) as Hin
        by (rewrite Hf; left).
      apply list_elem_of_filter in Hin as [Hnm Hin]. by destruct (Hno t Hin).
  - intros t Ht. rewrite Hl in Ht. apply last_Some_elem_of in Ht.
    apply list_elem_of_filter in Ht as [Hnm Hin]. done.
Qed.

Lemma constructed_catalog_lookup_witness :
  let late := mkBaseTool "sql_tool" (λ _, Return (Some "second")) in
  construct [Demo.sql_tool; Demo.document_tool; late] None (Some Demo.llm_direct) None
    = inr (init [Demo.sql_tool; Demo.document_tool; late] Demo.llm_direct None)
  ∧ tools_dict (init [Demo.sql_tool; Demo.document_tool; late] Demo.llm_direct None)
      !! "sql_tool" = Some late.
Proof.
  intros late. split; [reflexivity|].
  destruct (constructed_catalog_lookup [Demo.sql_tool; Demo.document_tool; late]
              None (Some Demo.llm_direct) None
              (init [Demo.sql_tool; Demo.document_tool; late] Demo.llm_direct None)
              "sql_tool" eq_refl) as (H & _).
  rewrite H. reflexivity.
Defined.

(** X2: [validate_tools] accepts a pair of tools exactly when they carry
    the names [sql_tool] and [document_tool]; the catalog of a workflow
    built from an accepted pair has these two keys, bound to the two
    tools, and no other. *)
Theorem validated_tools_resolve (sql_tool doc_tool : BaseTool) (l : LLM)
    (history : option (list ChatMessage)) :
  (validate_tools sql_tool doc_tool = true
   ↔ metadata_name sql_tool = "sql_tool"%string
     ∧ metadata_name doc_tool = "document_tool"%string)
  ∧ (validate_tools sql_tool doc_tool = true →
     let w := init [sql_tool; doc_tool] l history in
     tools_dict w !! "sql_tool"%string = Some sql_tool
     ∧ tools_dict w !! "document_tool"%string = Some doc_tool
     ∧ ∀ nm, nm ≠ "sql_tool"%string → nm ≠ "document_tool"%string →
         tools_dict w !! nm = None).
Proof.
  assert (Hiff : validate_tools sql_tool doc_tool = true
                 ↔ metadata_name sql_tool = "sql_tool"%string
                   ∧ metadata_name doc_tool = "document_tool"%string).
  { unfold validate_tools.
    destruct (decide (metadata_name sql_tool = "sql_tool"%string));
      destruct (decide (metadata_name doc_tool = "document_tool"%string));
      (split; [intros H; first [discriminate H|by split]
              |intros [? ?]; first [done|contradiction]]). }
  split; [done|]. intros Hok. apply Hiff in Hok as [Hs Hd]. simpl.
  rewrite Hs, Hd. split; [|split].
  - by rewrite lookup_insert_ne, lookup_insert_eq.
  - by rewrite lookup_insert_eq.
  - intros nm H1 H2. by rewrite !lookup_insert_ne.
Qed.

Lemma validated_tools_resolve_witness :
  validate_tools Demo.sql_tool Demo.document_tool = true
  ∧ tools_dict (init [Demo.sql_tool; Demo.document_tool] Demo.llm_direct None)
      !! "document_tool"%string = Some Demo.document_tool.
Proof.
  split; [reflexivity|].
  apply (proj2 (validated_tools_resolve Demo.sql_tool Demo.document_tool
                  Demo.llm_direct None) eq_refl).
Defined.

(** ** The history during a run *)

Lemma deliver_history_grows ev m q :
  chat_history (wf m) `prefix_of` chat_history (wf (deliver ev m q)).
Proof.
  destruct ev as [[text|]| |tcs|tc|msg|r]; simpl; try done.
  - destruct (chat_history (wf m)); simpl.
    + by apply prefix_nil.
    + by eexists.
  - unfold chat. destruct (reasoning_call (wf m)) as [[ai [|]]| |]; simpl;
      try done; by eexists.
  - unfold gather. destruct (num_tool_calls (ctx m)) as [n|]; [|done].
    destruct (collect_events (ctx m) msg n) as [cx' [[|]|]]; simpl;
      try done; by eexists.
Qed.

Lemma step_history_grows c m :
  chat_history (wf m) `prefix_of` chat_history (wf (step c m)).
Proof.
  unfold step. destruct (status m); try done.
  destruct (queue m !! _); [apply deliver_history_grows|done].
Qed.

Lemma exec_history_grows sched k t m :
  chat_history (wf m) `prefix_of` chat_history (wf (exec sched k t m)).
Proof.
  revert t m. induction k as [|k IH]; intros t m; simpl; [done|].
  etrans; [apply step_history_grows|apply IH].
Qed.

(** X3: a run only ever appends to the chat history: what the history
    holds at one point of a run is an initial part of what it holds at
    any later point, and the history from before the run is an initial
    part of both. *)
Theorem history_only_grows (sched : nat → nat) (w : Workflow)
    (message : option string) (n k : nat) :
  chat_history w `prefix_of` chat_history (wf (run sched n w message))
  ∧ chat_history (wf (run sched n w message))
    `prefix_of` chat_history (wf (run sched (n + k) w message)).
Proof.
  split; [apply (exec_history_grows sched n 0 (start w message))|].
  rewrite run_add. apply exec_history_grows.
Qed.

(** ** The truncation of [process_query] *)

(** X4: the truncation leaves at most 20 messages, those it leaves are
    an initial part of the history, applying it twice is applying it
    once, and it changes nothing exactly when the history has at most 20
    messages. *)
Theorem truncate_history_bounds (w : Workflow) :
  length (chat_history (truncate_history w)) ≤ 20
  ∧ chat_history (truncate_history w) `prefix_of` chat_history w
  ∧ truncate_history (truncate_history w) = truncate_history w
  ∧ (truncate_history w = w ↔ length (chat_history w) ≤ 20).
Proof.
  assert (Hcut : 20 < length (chat_history w) →
                 length (chat_history (truncate_history w)) ≤ 1
                 ∧ chat_history (truncate_history w) `prefix_of` chat_history w).
  { intros Hlen. unfold truncate_history. case_decide; [|lia].
    destruct (chat_history w) as [|m0 rest]; [simpl in Hlen; lia|]. simpl.
    case_decide; simpl; (split; [lia|]).
    - by apply prefix_cons, prefix_nil.
    - by apply prefix_nil. }
  destruct (decide (20 < length (chat_history w))) as [Hlen|Hlen].
  - destruct (Hcut Hlen) as [H1 Hp]. split; [lia|]. split; [done|]. split.
    + apply truncate_history_short. lia.
    + split; [|lia]. intros Heq. rewrite Heq in H1. lia.
  - rewrite !truncate_history_short by lia. split; [lia|]. split; [done|].
    split; [done|]. split; [intros _; lia|done].
Qed.

(** ** Each requested call is run once *)

Lemma exec_S_r sched n t m :
  exec sched (S n) t m = step (sched (t + n)) (exec sched n t m).
Proof. replace (S n) with (n + 1) by lia. by rewrite exec_add. Qed.

Lemma run_S sched n w message :
  run sched (S n) w message = step (sched n) (run sched n w message).
Proof. unfold run. by rewrite exec_S_r. Qed.

Lemma gather_sends_no_call w cx msg :
  omap pending_call (option_event (gather w cx msg).2) = [].
Proof.
  unfold gather. destruct (num_tool_calls cx) as [n|]; [|done].
  by destruct (collect_events cx msg n) as [cx' [[|]|]].
Qed.

Lemma planned_dispatched tcs : omap pending_call (map ToolCallEvent tcs) = tcs.
Proof. induction tcs as [|tc tcs IH]; [done|]. simpl. f_equal. exact IH. Qed.

Lemma planned_after_dispatch m tcs :
  planned (deliver (GatherToolsEvent tcs) m []) = calls_run m ++ tcs.
Proof. unfold planned. simpl. by rewrite planned_dispatched. Qed.

Lemma step_planned_in_round c w n target m :
  in_round w n target m → queue m ≠ [] → planned (step c m) ≡ₚ planned m.
Proof.
  intros Hir Hq. destruct (step_pick c m (ir_status _ _ _ _ Hir) Hq)
    as (i & ev & Hi & ->).
  pose proof (delete_Permutation _ _ _ Hi) as Hperm.
  pose proof (Forall_lookup_1 _ _ _ _ (ir_events _ _ _ _ Hir) Hi) as Hev.
  unfold planned at 2. rewrite (omap_Permutation pending_call _ _ Hperm).
  destruct ev as [?| |?|tc|msg|?]; try done; simpl.
  - unfold planned. simpl. rewrite omap_app. simpl. rewrite app_nil_r.
    rewrite <- (assoc_L (++)). simpl. done.
  - pose proof (gather_sends_no_call (wf m) (ctx m) msg) as Hg.
    destruct (gather (wf m) (ctx m) msg) as [[w' cx'] out]. simpl in Hg.
    unfold planned. simpl. by rewrite omap_app, Hg, app_nil_r.
Qed.

(** X5: in a round, every call the reasoning step requested is run, and
    none is run twice: at each point of the round the calls run so far
    are, as a multiset, part of those run before the round plus the
    round's calls, and at its end they are all of them. *)
Theorem each_call_runs_once (sched : nat → nat) (n0 : nat) (w : Workflow)
    (message : option string) (ai : ChatMessage)
    (tc : ToolSelection) (tcs : list ToolSelection) :
  let m := run sched n0 w message in
  let n := length (tc :: tcs) in
  InputEvent ∈ queue m →
  reasoning_call (wf m) = Return (ai, tc :: tcs) →
  (∀ j, j ≤ 2 * n + 2 →
     calls_run (run sched (n0 + j) w message) ⊆+ calls_run m ++ tc :: tcs)
  ∧ calls_run (run sched (n0 + (2 * n + 2)) w message) ≡ₚ calls_run m ++ tc :: tcs.
Proof.
  intros m n Hin Hcall.
  destruct (run_round sched n0 w message ai tc tcs Hin Hcall)
    as (H1 & H2 & Hmid & msgs & log & Hp & Hend).
  fold m in H1, Hmid, Hend. fold n in Hmid, Hend.
  assert (Hn1 : 1 ≤ n) by (unfold n; simpl; lia).
  assert (Hplan : ∀ d, d ≤ 2 * n →
            planned (run sched (n0 + (2 + d)) w message) ≡ₚ calls_run m ++ tc :: tcs).
  { induction d as [|d IH]; intros Hd.
    - replace (n0 + (2 + 0)) with (S (n0 + 1)) by lia.
      by rewrite run_S, H1, step_single, planned_after_dispatch.
    - replace (n0 + (2 + S d)) with (S (n0 + (2 + d))) by lia.
      rewrite run_S. destruct (Hmid (2 + d)) as [Hir Hq]; [lia|].
      rewrite (step_planned_in_round _ _ _ _ _ Hir Hq). apply IH. lia. }
  split.
  - intros j Hj. destruct (decide (j = 0)) as [->|Hj0].
    { rewrite Nat.add_0_r. fold m. by apply submseteq_inserts_r. }
    destruct (decide (j = 1)) as [->|Hj1].
    { rewrite H1. simpl. by apply submseteq_inserts_r. }
    replace j with (2 + (j - 2)) by lia. rewrite <- (Hplan (j - 2)) by lia.
    unfold planned. by apply submseteq_inserts_r.
  - rewrite <- (Hplan (2 * n)) by lia.
    replace (n0 + (2 + 2 * n)) with (n0 + (2 * n + 2)) by lia.
    rewrite Hend. unfold planned. simpl. by rewrite app_nil_r.
Qed.

Lemma each_call_runs_once_witness :
  let w := Demo.fresh (Demo.llm_calls [Demo.call_sql; Demo.call_doc; Demo.call_slow]) in
  InputEvent ∈ queue (run Demo.staggered 1 w (Some "Hi"))
  ∧ calls_run (run Demo.staggered (1 + 8) w (Some "Hi"))
    ≡ₚ [Demo.call_sql; Demo.call_doc; Demo.call_slow].
Proof.
  intros w.
  assert (Hin : InputEvent ∈ queue (run Demo.staggered 1 w (Some "Hi")))
    by (vm_compute; left).
  split; [exact Hin|].
  exact (proj2 (each_call_runs_once Demo.staggered 1 w (Some "Hi") (Demo.ai_msg "")
                  Demo.call_sql [Demo.call_doc; Demo.call_slow] Hin eq_refl)).
Defined.

(** ** What a run returns *)

Lemma no_stop_among_round_events q result :
  Forall round_event q → StopEvent result ∉ q.
Proof. rewrite Forall_forall. intros Hev Hin. by apply Hev in Hin. Qed.

Lemma step_well_stopped c m : well_stopped m → well_stopped (step c m).
Proof.
  intros (Hph & Hstop & Hret). split; [by apply step_phase|].
  destruct Hph as [message Hs Hq Hb|Hs Hq Hb|tc tcs Hs Hq Hb
                  |n target Hir Hq|r Hs Hq|Hs Hq].
  - rewrite (step_alone _ _ _ Hs Hq). destruct message as [text|]; simpl.
    + split; [|done]. intros r Hin. apply list_elem_of_singleton in Hin. done.
    + split; [|done]. intros r Hin. by apply not_elem_of_nil in Hin.
  - rewrite (step_alone _ _ _ Hs Hq). simpl. unfold chat.
    destruct (reasoning_call (wf m)) as [[ai [|tc tcs]]| |]; simpl.
    all: split; [|done]; intros r Hin; apply list_elem_of_singleton in Hin.
    all: try done; injection Hin as ->.
    + right. right. by exists (chat_history (wf m)), ai.
    + right. by left.
    + by left.
  - rewrite (step_alone _ _ _ Hs Hq). simpl. split; [|done].
    intros r Hin. by apply (tool_call_events_round (tc :: tcs)) in Hin.
  - pose proof (round_weight_pos _ (ir_events _ _ _ _ Hir) Hq) as Hpos.
    destruct (sum_list_with weight (queue m)) as [|k] eqn:Hk; [lia|].
    destruct (in_round_step c _ _ _ _ _ Hir Hk) as [Hgo Hlast].
    destruct k as [|k].
    + destruct (Hlast eq_refl) as (msgs & _ & ->). simpl. split; [|done].
      intros r Hin. apply list_elem_of_singleton in Hin. done.
    + destruct Hgo as [Hir' _]; [done|]. split.
      * intros r Hin.
        by apply (no_stop_among_round_events _ r (ir_events _ _ _ _ Hir')) in Hin.
      * intros r Hr. by rewrite (ir_status _ _ _ _ Hir') in Hr.
  - rewrite (step_alone _ _ _ Hs Hq). simpl. split.
    + intros r' Hin. by apply not_elem_of_nil in Hin.
    + intros r' [= <-]. apply Hstop. rewrite Hq. left.
  - rewrite step_finished by done. by split.
Qed.

Lemma run_well_stopped sched n w message : well_stopped (run sched n w message).
Proof.
  unfold run.
  assert (H : ∀ k t m, well_stopped m → well_stopped (exec sched k t m)).
  { induction k as [|k IH]; intros t m Hm; simpl; [done|].
    by apply IH, step_well_stopped. }
  apply H. split; [by eapply ph_start|]. split; [|done].
  intros r Hin. apply list_elem_of_singleton in Hin. done.
Qed.

(** X6: whatever a run returns is the content of the message that ends
    the chat history at that point (the final assistant message), or one
    of the two fixed texts of [chat]; it is never the output of a tool as
    such. *)
Theorem run_returns_final_message (sched : nat → nat) (n : nat)
    (w : Workflow) (message : option string) (result : string) :
  status (run sched n w message) = Returned result →
  result = chat_cancelled_text ∨ result = chat_apology_text
  ∨ ∃ h ai, chat_history (wf (run sched n w message)) = h ++ [ai]
            ∧ result = content ai.
Proof.
  intros Hr. destruct (run_well_stopped sched n w message) as (_ & _ & Hret).
  by apply Hret.
Qed.

Lemma run_returns_final_message_witness :
  let w := Demo.fresh (Demo.llm_calls [Demo.call_sql; Demo.call_doc]) in
  status (run Demo.staggered 9 w (Some "Hi")) = Returned "Done."
  ∧ ("Done."%string = chat_cancelled_text ∨ "Done."%string = chat_apology_text
     ∨ ∃ h ai, chat_history (wf (run Demo.staggered 9 w (Some "Hi"))) = h ++ [ai]
               ∧ "Done."%string = content ai).
Proof.
  intros w. split; [reflexivity|].
  apply (run_returns_final_message Demo.staggered 9 w (Some "Hi")). reflexivity.
Defined.

(** ** What [gather] meets in a run *)

(** X7: whenever a tool result is pending in a run, the count of the
    round has been stored, it is larger than the number of results
    buffered so far, and [gather] does not end the run on it: its failure
    branch is not taken. *)
Theorem gather_finds_its_count (sched : nat → nat) (n : nat) (w : Workflow)
    (message : option string) (msg : ChatMessage) :
  let m := run sched n w message in
  ToolCallEventResult msg ∈ queue m →
  (∃ k, num_tool_calls (ctx m) = Some k
        ∧ length (events_buffer (ctx m)) < k
        ∧ length (events_buffer (ctx m)) + length (queue m) = k)
  ∧ ∀ result, (gather (wf m) (ctx m) msg).2 ≠ Some (StopEvent result).
Proof.
  intros m Hin.
  assert (Hk : ∃ k, num_tool_calls (ctx m) = Some k
                    ∧ length (events_buffer (ctx m)) < k
                    ∧ length (events_buffer (ctx m)) + length (queue m) = k).
  { pose proof (run_phase sched n w message) as Hph. fold m in Hph.
    destruct Hph
      as [mg Hs Hq Hb|Hs Hq Hb|tc tcs Hs Hq Hb|k target Hir Hq|r Hs Hq|Hs Hq].
    all: try (rewrite Hq in Hin; apply list_elem_of_singleton in Hin; done).
    - exists k. split; [apply (ir_num _ _ _ _ Hir)|].
      pose proof (in_round_buffer _ _ _ _ Hir) as Hlen. split; [|done].
      destruct (queue m); [done|]. simpl in Hlen. lia.
    - rewrite Hq in Hin. by apply not_elem_of_nil in Hin. }
  split; [done|]. destruct Hk as (k & Hnum & _). intros result.
  unfold gather. rewrite Hnum.
  by destruct (collect_events (ctx m) msg k) as [cx' [[|]|]].
Qed.

Lemma gather_finds_its_count_witness :
  let w := Demo.fresh (Demo.llm_calls [Demo.call_sql; Demo.call_doc]) in
  let m := run Demo.fifo 4 w (Some "Hi") in
  ToolCallEventResult (call_tool_msg w Demo.call_sql) ∈ queue m
  ∧ ∃ k, num_tool_calls (ctx m) = Some k
         ∧ length (events_buffer (ctx m)) < k
         ∧ length (events_buffer (ctx m)) + length (queue m) = k.
Proof.
  intros w m.
  assert (Hin : ToolCallEventResult (call_tool_msg w Demo.call_sql) ∈ queue m)
    by (vm_compute; right; left).
  split; [exact Hin|].
  exact (proj1 (gather_finds_its_count Demo.fifo 4 w (Some "Hi") _ Hin)).
Defined.

(** ** One call per reply *)

Lemma exec_narrow sched k w : single_call w → ∀ t m,
  narrow w m → narrow w (exec sched k t m).
Proof.
  intros Hsingle. induction k as [|k IH]; intros t m Hm; simpl; [done|].
  by apply IH, step_narrow.
Qed.

(** X8: with a reasoning client that requests at most one call per
    reply, at most one event is ever pending in a run, and the whole run
    (history, calls run, result) is the same whatever the order of
    deliveries. *)
Theorem single_call_run_is_sequential (sched sched' : nat → nat) (n : nat)
    (w : Workflow) (message : option string) :
  single_call w →
  length (queue (run sched n w message)) ≤ 1
  ∧ run sched' n w message = run sched n w message.
Proof.
  intros Hsingle. split.
  - apply (exec_narrow sched n w Hsingle 0 (start w message)).
    split; [simpl; lia|]. split; [done|]. simpl. intros tcs Hin.
    apply list_elem_of_singleton in Hin. done.
  - by apply run_single_call_any_schedule.
Qed.

Lemma single_call_run_is_sequential_witness :
  let w := Demo.fresh (Demo.llm_calls [Demo.call_doc]) in
  single_call w
  ∧ run Demo.staggered 7 w (Some "Hi") = run Demo.fifo 7 w (Some "Hi").
Proof.
  intros w.
  assert (Hsingle : single_call w).
  { intros h ai tcs. unfold reasoning_call. simpl.
    case_decide; intros [= _ <-]; simpl; lia. }
  split; [exact Hsingle|].
  exact (proj2 (single_call_run_is_sequential Demo.fifo Demo.staggered 7 w
                  (Some "Hi") Hsingle)).
Defined.

(** ** No bound on the rounds *)



(** ** Text *)

Lemma lower_app a b : lower (a +:+ b) = lower a +:+ lower b.
Proof. induction a as [|c a IH]; [done|]. simpl. by rewrite IH. Qed.

Lemma prefix_empty s : String.prefix "" s = true.
Proof. by destruct s. Qed.

Lemma prefix_refl n : String.prefix n n = true.
Proof.
  induction n as [|c n IH]; [done|]. simpl.
  destruct (ascii_dec c c); [exact IH|done].
Qed.

Lemma prefix_app_same n b : String.prefix n (n +:+ b) = true.
Proof.
  induction n as [|c n IH]; [apply prefix_empty|]. simpl.
  destruct (ascii_dec c c); [exact IH|done].
Qed.

Lemma prefix_app_l n a b :
  String.prefix n a = true → String.prefix n (a +:+ b) = true.
Proof.
  revert a. induction n as [|c n IH]; intros a H; [apply prefix_empty|].
  destruct a as [|c' a]; [done|]. simpl in *.
  destruct (ascii_dec c c'); [by apply IH|done].
Qed.

Lemma mentions_prefix n hay : String.prefix n hay = true → mentions n hay = true.
Proof. intros H. destruct hay; cbn [mentions]; by rewrite H. Qed.

Lemma mentions_app_r n a b : mentions n b = true → mentions n (a +:+ b) = true.
Proof.
  intros H. induction a as [|c a IH]; [done|].
  change (String c a +:+ b) with (String c (a +:+ b)). cbn [mentions].
  destruct (String.prefix n (String c (a +:+ b))); [done|exact IH].
Qed.

Lemma mentions_app_l n a b : mentions n a = true → mentions n (a +:+ b) = true.
Proof.
  induction a as [|c a IH]; cbn [mentions].
  - destruct (String.prefix n "") eqn:Hp; [|done]. intros _.
    apply mentions_prefix. by apply (prefix_app_l n "" b).
  - change (String c a +:+ b) with (String c (a +:+ b)). cbn [mentions].
    destruct (String.prefix n (String c a)) eqn:Hp.
    + intros _. change (String c (a +:+ b)) with (String c a +:+ b).
      by rewrite (prefix_app_l n (String c a) b Hp).
    + intros H. destruct (String.prefix n (String c (a +:+ b))); [done|by apply IH].
Qed.

Lemma mentions_inside n a b : mentions n (a +:+ n +:+ b) = true.
Proof. apply mentions_app_r, mentions_prefix, prefix_app_same. Qed.

(** ** The tool report *)

Lemma report_step_names acc msg :
  report_step acc msg = acc
  ∨ (role msg = tool ∧ reportable msg = true ∧ (tool_used_name msg ∉ acc.2)
     ∧ report_step acc msg
       = (acc.1 ++ [(tool_used_name msg, content msg)],
          {[tool_used_name msg]} ∪ acc.2)).
Proof.
  destruct acc as [l seen]. unfold report_step.
  destruct (decide (role msg = tool)); [|by left].
  destruct (reportable msg); [|by left].
  destruct (decide (tool_used_name msg ∈ seen)); [by left|by right].
Qed.

Lemma report_step_skip acc msg :
  ¬ (role msg = tool ∧ reportable msg = true) → report_step acc msg = acc.
Proof.
  intros Hno. destruct (report_step_names acc msg) as [H|(Hr & Hp & _)]; [done|].
  by destruct Hno.
Qed.

Lemma report_step_same acc msg :
  report_step acc msg = acc → role msg = tool → reportable msg = true →
  tool_used_name msg ∈ acc.2.
Proof.
  destruct acc as [l seen]. unfold report_step. intros Hsame Hrole Hrep.
  rewrite decide_True, Hrep in Hsame by done.
  destruct (decide (tool_used_name msg ∈ seen)) as [Hs|Hs]; [done|].
  injection Hsame as Hl _. exfalso.
  apply (f_equal length) in Hl. rewrite length_app in Hl. simpl in Hl. lia.
Qed.

Lemma reported_all h : reported h (foldl report_step ([], ∅) h).
Proof.
  induction h as [|msg h IH] using rev_ind.
  { split; [constructor|]. split; [set_solver|]. split; [|set_solver].
    intros n r Hin. by apply not_elem_of_nil in Hin. }
  rewrite foldl_snoc. destruct IH as (Hnd & Hseen & Hfirst & Hall).
  set (acc := foldl report_step ([], ∅) h) in *.
  destruct (report_step_names acc msg) as [Hsame|(Hr & Hp & Hnew & Hadd)].
  - rewrite Hsame. split; [done|]. split; [done|]. split.
    + intros n r Hin. destruct (Hfirst n r Hin) as (h1 & m & h2 & -> & Hm).
      exists h1, m, (h2 ++ [msg]). split; [|done].
      by rewrite <- (assoc_L (++)).
    + intros m Hin Hrole Hrep. apply elem_of_app in Hin as [Hin|Hin].
      { by apply Hall. }
      apply list_elem_of_singleton in Hin as ->. by apply report_step_same.
  - rewrite Hadd. unfold reported. simpl. split; [|split; [|split]].
    + rewrite fmap_app. simpl. apply NoDup_app. split; [done|].
      split; [|apply NoDup_singleton]. intros n Hn Hn'.
      apply list_elem_of_singleton in Hn' as ->. by apply Hnew, Hseen.
    + intros n. rewrite fmap_app, elem_of_app, elem_of_union, Hseen.
      simpl. rewrite list_elem_of_singleton, elem_of_singleton. tauto.
    + intros n r Hin. apply elem_of_app in Hin as [Hin|Hin].
      * destruct (Hfirst n r Hin) as (h1 & m & h2 & -> & Hm).
        exists h1, m, (h2 ++ [msg]). split; [|done].
        by rewrite <- (assoc_L (++)).
      * apply list_elem_of_singleton in Hin as [= -> ->].
        exists h, msg, []. split; [done|]. split; [done|]. split; [done|].
        split; [done|]. split; [done|]. intros m' Hm' Hrole Hrep Heq.
        apply Hnew. rewrite <- Heq. by apply Hall.
    + intros m Hin Hrole Hrep. apply elem_of_app in Hin as [Hin|Hin].
      * apply elem_of_union. right. by apply Hall.
      * apply list_elem_of_singleton in Hin as ->. apply elem_of_union. left.
        by apply elem_of_singleton.
Qed.

Lemma two_splits {A} (h1 h1' h2 h2' : list A) x x' :
  h1 ++ x :: h2 = h1' ++ x' :: h2' →
  (h1 = h1' ∧ x = x') ∨ x ∈ h1' ∨ x' ∈ h1.
Proof.
  revert h1'. induction h1 as [|a h1 IH]; intros [|a' h1'] Heq; simpl in Heq.
  - injection Heq as -> _. by left.
  - injection Heq as -> _. right. left. left.
  - injection Heq as -> _. right. right. left.
  - injection Heq as -> Heq. destruct (IH h1' Heq) as [[-> ->]|[Hin|Hin]].
    + by left.
    + right. left. by right.
    + right. right. by right.
Qed.

(** X9: the report of [process_query] names no tool twice; it holds a
    name with a response exactly when the response is the content of the
    first tool message of that name whose content has neither of the two
    words. *)
Theorem tools_used_first_clean_result (h : list ChatMessage) :
  NoDup (tools_used h).*1
  ∧ ∀ n r, (n, r) ∈ tools_used h
      ↔ ∃ h1 msg h2, h = h1 ++ msg :: h2
          ∧ role msg = tool ∧ reportable msg = true
          ∧ tool_used_name msg = n ∧ content msg = r
          ∧ ∀ m', m' ∈ h1 → role m' = tool → reportable m' = true →
              tool_used_name m' ≠ n.
Proof.
  destruct (reported_all h) as (Hnd & Hseen & Hfirst & Hall).
  split; [done|]. intros n r. split; [apply Hfirst|].
  intros (h1 & msg & h2 & Hh & Hrole & Hrep & Hn & Hr & Hbefore).
  assert (Hin : msg ∈ h) by (rewrite Hh, elem_of_app; right; left).
  pose proof (Hall msg Hin Hrole Hrep) as Hs. rewrite Hn in Hs.
  apply Hseen, list_elem_of_fmap in Hs as ([n' r'] & Hn' & Hentry).
  simpl in Hn'. subst n'.
  destruct (Hfirst n r' Hentry)
    as (h1' & msg' & h2' & Hh' & Hrole' & Hrep' & Hn'' & Hr' & Hbefore').
  rewrite Hh in Hh'. destruct (two_splits _ _ _ _ _ _ Hh') as [[_ <-]|[Hc|Hc]].
  - by rewrite <- Hr, Hr'.
  - by destruct (Hbefore' msg Hc Hrole Hrep).
  - destruct (Hbefore msg' Hc Hrole' Hrep'). by rewrite Hn''.
Qed.

Lemma tools_used_first_clean_result_witness :
  tools_used reported_history = [("sql_tool", "1990-04-12")]%string
  ∧ NoDup (tools_used reported_history).*1.
Proof.
  split; [reflexivity|]. apply (tools_used_first_clean_result reported_history).
Defined.

Lemma tools_used_skip h1 msg h2 :
  ¬ (role msg = tool ∧ reportable msg = true) →
  tools_used (h1 ++ msg :: h2) = tools_used (h1 ++ h2).
Proof.
  intros Hno. unfold tools_used. rewrite !foldl_app. simpl.
  by rewrite (report_step_skip _ msg Hno).
Qed.

Lemma error_text_not_reportable tc e :
  reportable (tool_message tc (tool_error_text tc e)) = false.
Proof.
  unfold reportable, tool_error_text. simpl content. rewrite lower_app.
  rewrite (mentions_app_l "error" (lower "Error executing ")) by reflexivity.
  apply andb_false_r.
Qed.

Lemma cancelled_text_not_reportable tc :
  reportable (tool_message tc tool_cancelled_text) = false.
Proof. reflexivity. Qed.

(** X10: a call that failed or was cancelled in [call_tool] is never in
    the report: its message does not pass the test, and the report is the
    one of the history without it.  The same holds for any tool message
    whose content has one of the two words in any casing, a successful
    one included. *)
Theorem failed_calls_are_not_reported (w : Workflow) (tc : ToolSelection)
    (h1 h2 : list ChatMessage) :
  (∀ text, invoke_tool w tc ≠ Return text) →
  reportable (call_tool_msg w tc) = false
  ∧ tools_used (h1 ++ call_tool_msg w tc :: h2) = tools_used (h1 ++ h2)
  ∧ ∀ text,
      mentions "error" (lower text) = true
      ∨ mentions "cancelled" (lower text) = true →
      tools_used (h1 ++ tool_message tc text :: h2) = tools_used (h1 ++ h2).
Proof.
  intros Hfail.
  assert (Hrep : reportable (call_tool_msg w tc) = false).
  { unfold call_tool_msg. destruct (invoke_tool w tc) as [text|e|].
    - by destruct (Hfail text).
    - apply error_text_not_reportable.
    - apply cancelled_text_not_reportable. }
  split; [done|]. split.
  - apply tools_used_skip. intros [_ H]. by rewrite Hrep in H.
  - intros text Hword. apply tools_used_skip. intros [_ H].
    unfold reportable in H. simpl in H.
    destruct Hword as [Hw|Hw]; rewrite Hw in H; simpl in H;
      [by rewrite andb_false_r in H|done].
Qed.

Lemma failed_calls_are_not_reported_witness :
  let w := Demo.fresh Demo.llm_direct in
  (∀ text, invoke_tool w Demo.call_doc ≠ Return text)
  ∧ tools_used reported_history = [("sql_tool", "1990-04-12")]%string.
Proof.
  intros w.
  assert (Hfail : ∀ text, invoke_tool w Demo.call_doc ≠ Return text) by done.
  split; [exact Hfail|].
  destruct (failed_calls_are_not_reported w Demo.call_doc
              [user_msg "Hi"; tool_message Demo.call_sql "1990-04-12"]
              [tool_message Demo.call_sql "1985-01-30"] Hfail) as (_ & Hskip & _).
  change reported_history
    with ([user_msg "Hi"; tool_message Demo.call_sql "1990-04-12"]
          ++ call_tool_msg w Demo.call_doc :: [tool_message Demo.call_sql "1985-01-30"]).
  rewrite Hskip. reflexivity.
Defined.

(** X11: when the query engine raises, [document_query_tool] returns a
    text naming the error instead of raising; a call whose adapter
    returns that text is folded as an ordinary result with that content,
    and the report leaves it out. *)
Theorem document_failure_is_plain_output
    (query_engine : string → PyException + string) (query : string)
    (e : PyException) (w : Workflow) (tc : ToolSelection) (t : BaseTool)
    (h1 h2 : list ChatMessage) :
  query_engine query = inl e →
  tools_dict w !! tool_name tc = Some t →
  acall t (tool_kwargs tc) = Return (Some (document_query_tool query_engine query)) →
  document_query_tool query_engine query
    = ("Error querying documents: " +:+ str_exc e)%string
  ∧ call_tool w tc
    = ToolCallEventResult
        (tool_message tc ("Error querying documents: " +:+ str_exc e))
  ∧ tools_used (h1 ++ call_tool_msg w tc :: h2) = tools_used (h1 ++ h2).
Proof.
  intros He Ht Hcall.
  assert (Hdoc : document_query_tool query_engine query
                 = ("Error querying documents: " +:+ str_exc e)%string).
  { unfold document_query_tool. by rewrite He. }
  assert (Hmsg : call_tool_msg w tc
                 = tool_message tc ("Error querying documents: " +:+ str_exc e)).
  { unfold call_tool_msg, invoke_tool. rewrite Ht, Hcall. simpl. by rewrite Hdoc. }
  split; [done|]. split; [unfold call_tool; by rewrite Hmsg|].
  apply tools_used_skip. intros [_ H]. rewrite Hmsg in H.
  unfold reportable in H. simpl content in H. rewrite lower_app in H.
  rewrite (mentions_app_l "error" (lower "Error querying documents: ")) in H
    by reflexivity.
  by rewrite andb_false_r in H.
Qed.

Lemma document_failure_is_plain_output_witness :
  let engine := λ _ : string, inl (Exception "index offline") : PyException + string in
  let t := mkBaseTool "document_tool"
             (λ _, Return (Some (document_query_tool engine "policy"))) in
  let w := init [Demo.sql_tool; t] Demo.llm_direct None in
  engine "policy"%string = inl (Exception "index offline")
  ∧ call_tool w Demo.call_doc
    = ToolCallEventResult
        (tool_message Demo.call_doc "Error querying documents: index offline").
Proof.
  intros engine t w. split; [reflexivity|].
  exact (proj1 (proj2 (document_failure_is_plain_output engine "policy"
                         (Exception "index offline") w Demo.call_doc t [] []
                         eq_refl eq_refl eq_refl))).
Defined.

(** ** The description of the SQL tool *)

Lemma schema_description_snoc cols col :
  schema_description (cols ++ [col]) = schema_description cols +:+ column_line col.
Proof. unfold schema_description. by rewrite foldl_snoc. Qed.

Lemma schema_description_mentions cols col :
  col ∈ cols → mentions (column_line col) (schema_description cols) = true.
Proof.
  induction cols as [|c cols IH] using rev_ind; intros Hin.
  { by apply not_elem_of_nil in Hin. }
  rewrite schema_description_snoc. apply elem_of_app in Hin as [Hin|Hin].
  - by apply mentions_app_l, IH.
  - apply list_elem_of_singleton in Hin as ->.
    apply mentions_app_r, mentions_prefix, prefix_refl.
Qed.

(** X12: the description of the SQL tool lists the columns the database
    reported, in their order, each with its type; when the schema could
    not be read the list under the heading is empty. *)
Theorem sql_description_lists_columns (table_info : PyException + list TableInfoRow)
    (table_name : string) :
  let schema_info := get_database_schema table_info in
  (∀ col, col ∈ schema_info →
     mentions (column_line col) (schema_description schema_info) = true
     ∧ mentions (column_line col) (sql_tool_description table_name schema_info) = true)
  ∧ (∀ rows, table_info = inr rows →
       map col_name schema_info = map row_name rows
       ∧ map col_type schema_info = map row_type rows)
  ∧ (∀ e, table_info = inl e →
       schema_description schema_info = ("Available columns:" +:+ PyText.nl)%string).
Proof.
  intros schema_info. split; [|split].
  - intros col Hin. pose proof (schema_description_mentions _ _ Hin) as Hm.
    split; [done|]. unfold sql_tool_description.
    do 5 apply mentions_app_r. by apply mentions_app_l.
  - intros rows ->. unfold schema_info. simpl. rewrite <- !list_fmap_compose.
    done.
  - by intros e ->.
Qed.

Lemma sql_description_lists_columns_witness :
  let birthday := mkColumn "Birthday" "DATETIME" false false in
  birthday ∈ get_database_schema (inr people_rows)
  ∧ column_line birthday = ("  - Birthday (DATETIME)" +:+ PyText.nl)%string
  ∧ mentions (column_line birthday)
      (sql_tool_description "data" (get_database_schema (inr people_rows))) = true.
Proof.
  intros birthday.
  assert (Hin : birthday ∈ get_database_schema (inr people_rows))
    by (right; left).
  split; [exact Hin|]. split; [reflexivity|].
  exact (proj2 (proj1 (sql_description_lists_columns (inr people_rows) "data")
                  birthday Hin)).
Defined.

(** ** Where the tool messages of a history come from *)

Lemma gather_moves w cx msg0 :
  config (gather w cx msg0).1.1 = config w
  ∧ (∀ msg, msg ∈ chat_history (gather w cx msg0).1.1
            ∨ msg ∈ events_buffer (gather w cx msg0).1.2 →
       msg ∈ chat_history w ∨ msg ∈ events_buffer cx ∨ msg = msg0)
  ∧ ∀ msg, ToolCallEventResult msg ∉ option_event (gather w cx msg0).2.
Proof.
  split; [apply gather_config|].
  assert (Hbuf : ∀ msg, msg ∈ events_buffer cx ++ [msg0] →
                        msg ∈ events_buffer cx ∨ msg = msg0).
  { intros msg Hin. apply elem_of_app in Hin as [Hin|Hin]; [by left|].
    right. by apply list_elem_of_singleton in Hin. }
  unfold gather. destruct (num_tool_calls cx) as [n|]; simpl.
  - unfold collect_events. case_decide; simpl.
    + destruct (take n (events_buffer cx ++ [msg0])) as [|m0 got] eqn:Hgot; simpl.
      * split; [|intros msg Hin; by apply not_elem_of_nil in Hin].
        intros msg [Hin|Hin]; [by left|]. right.
        by apply Hbuf, (subseteq_drop n).
      * split; [|intros msg Hin; by apply list_elem_of_singleton in Hin].
        intros msg [Hin|Hin].
        -- apply elem_of_app in Hin as [Hin|Hin]; [by left|]. right.
           apply Hbuf, (subseteq_take n). by rewrite Hgot.
        -- right. by apply Hbuf, (subseteq_drop n).
    + split; [|intros msg Hin; by apply not_elem_of_nil in Hin].
      intros msg [Hin|Hin]; [by left|]. right. by apply Hbuf.
  - split; [tauto|]. intros msg Hin. by apply list_elem_of_singleton in Hin.
Qed.

Lemma deliver_traced w0 ev m q :
  replies_not_tool w0 → traced w0 m → ev ∈ queue m →
  (∀ x, x ∈ q → x ∈ queue m) →
  traced w0 (deliver ev m q).
Proof.
  intros Hllm [Hcfg Htr] Hev Hq.
  assert (Hold : ∀ msg, role msg = tool →
            msg ∈ chat_history (wf m) ∨ msg ∈ events_buffer (ctx m)
            ∨ ToolCallEventResult msg ∈ q →
            msg ∈ chat_history w0 ∨ ∃ tc, tc ∈ calls_run m ∧ msg = call_tool_msg w0 tc).
  { intros msg Hr [H|[H|H]]; apply Htr; auto. }
  split; [by rewrite deliver_config|].
  destruct ev as [[text|]| |tcs|tc|msg0|r].
  - change (deliver (StartEvent (Some text)) m q)
      with (mkMachine (prepared (wf m) text) (ctx m) (q ++ [InputEvent]) Running
              (calls_run m)).
    cbn [wf ctx queue calls_run]. rewrite prepared_history.
    intros msg Hr [Hin|[Hin|Hin]].
    + apply elem_of_app in Hin as [Hin|Hin].
      * destruct (chat_history (wf m)) as [|x l] eqn:Hh.
        { apply list_elem_of_singleton in Hin as ->. done. }
        apply Hold; [done|]. by left.
      * apply list_elem_of_singleton in Hin as ->. done.
    + apply Hold; auto.
    + apply elem_of_app in Hin as [Hin|Hin]; [apply Hold; auto|].
      apply list_elem_of_singleton in Hin. done.
  - simpl. intros msg Hr Hin. apply Hold; tauto.
  - simpl. unfold chat.
    destruct (reasoning_call (wf m)) as [[ai [|tc tcs]]| |] eqn:Hcall; simpl.
    all: intros msg Hr [Hin|[Hin|Hin]].
    all: try (apply Hold; by auto).
    all: try (apply elem_of_app in Hin as [Hin|Hin];
              [apply Hold; by auto|apply list_elem_of_singleton in Hin; try done]).
    all: subst msg; rewrite (config_set_history w0 (wf m) Hcfg) in Hcall;
      by destruct (Hllm _ _ _ Hcall).
  - simpl. intros msg Hr [Hin|[Hin|Hin]]; try (apply Hold; by auto).
    apply elem_of_app in Hin as [Hin|Hin]; [apply Hold; by auto|].
    apply list_elem_of_fmap in Hin as (? & ? & _). done.
  - simpl. intros msg Hr Hin.
    assert (Hgrow : ∀ x, x ∈ calls_run m → x ∈ calls_run m ++ [tc])
      by (intros x Hx; apply elem_of_app; by left).
    assert (Hkeep : msg ∈ chat_history w0
                    ∨ (∃ tc0, tc0 ∈ calls_run m ∧ msg = call_tool_msg w0 tc0) →
                    msg ∈ chat_history w0
                    ∨ ∃ tc0, tc0 ∈ calls_run m ++ [tc] ∧ msg = call_tool_msg w0 tc0).
    { intros [?|(x & Hx & ->)]; [by left|]. right. exists x. by split; [apply Hgrow|]. }
    destruct Hin as [Hin|[Hin|Hin]]; [apply Hkeep, Hold; by auto..|].
    apply elem_of_app in Hin as [Hin|Hin]; [apply Hkeep, Hold; by auto|].
    apply list_elem_of_singleton in Hin. injection Hin as ->.
    right. exists tc. split; [apply elem_of_app; right; left|].
    by apply call_tool_msg_config.
  - destruct (gather_moves (wf m) (ctx m) msg0) as (_ & Hmove & Hout).
    simpl. destruct (gather (wf m) (ctx m) msg0) as [[w' cx'] out]. simpl in *.
    intros msg Hr Hin.
    assert (Hcase : msg ∈ chat_history (wf m) ∨ msg ∈ events_buffer (ctx m)
                    ∨ msg = msg0 ∨ ToolCallEventResult msg ∈ q).
    { destruct Hin as [Hin|[Hin|Hin]].
      - destruct (Hmove msg (or_introl Hin)) as [?|[?|?]]; auto.
      - destruct (Hmove msg (or_intror Hin)) as [?|[?|?]]; auto.
      - apply elem_of_app in Hin as [Hin|Hin]; [auto|]. by apply Hout in Hin. }
    destruct Hcase as [H|[H|[->|H]]]; try (apply Hold; by auto).
    apply Htr; auto.
  - simpl. intros msg Hr Hin. apply Hold; tauto.
Qed.

Lemma step_traced c w0 m : replies_not_tool w0 → traced w0 m → traced w0 (step c m).
Proof.
  intros Hllm Htr. unfold step. destruct (status m); try done.
  destruct (queue m !! _) as [ev|] eqn:Hev; [|done].
  apply deliver_traced; try done.
  - by eapply list_elem_of_lookup_2.
  - intros x. apply list_elem_of_delete_inv.
Qed.

Lemma run_traced sched n w message :
  replies_not_tool w → traced w (run sched n w message).
Proof.
  intros Hllm. unfold run.
  assert (H : ∀ k t m, traced w m → traced w (exec sched k t m)).
  { induction k as [|k IH]; intros t m Hm; simpl; [done|].
    by apply IH, step_traced. }
  apply H. split; [done|]. simpl. intros msg Hr [Hin|[Hin|Hin]].
  - by left.
  - by apply not_elem_of_nil in Hin.
  - apply list_elem_of_singleton in Hin. done.
Qed.

Lemma tool_used_name_tool_message tc text :
  tool_used_name (tool_message tc text) = tool_name tc.
Proof. unfold tool_used_name. simpl. by rewrite lookup_insert_eq. Qed.

(** X13: what the report lists after a run is backed by the run: each
    name with its response comes from a tool message that was already in
    the history before the run, or is the name of a call that was run and
    whose adapter returned that response. *)
Theorem report_is_backed_by_calls (sched : nat → nat) (n : nat) (w : Workflow)
    (message : option string) (nm response : string) :
  replies_not_tool w →
  let m := run sched n w message in
  (nm, response) ∈ tools_used (chat_history (wf m)) →
  (∃ msg, msg ∈ chat_history w ∧ role msg = tool
          ∧ tool_used_name msg = nm ∧ content msg = response)
  ∨ ∃ tc, tc ∈ calls_run m ∧ tool_name tc = nm
          ∧ invoke_tool w tc = Return response.
Proof.
  intros Hllm m Hin.
  destruct (reported_all (chat_history (wf m))) as (_ & _ & Hfirst & _).
  destruct (Hfirst nm response Hin)
    as (h1 & msg & h2 & Hh & Hrole & Hrep & Hnm & Hr & _).
  destruct (run_traced sched n w message Hllm) as [_ Htr]. fold m in Htr.
  destruct (Htr msg Hrole) as [Hold|(tc & Htc & Hmsg)].
  { left. rewrite Hh. apply elem_of_app. right. left. }
  - left. by exists msg.
  - right. exists tc. split; [done|]. subst msg.
    unfold call_tool_msg in *. destruct (invoke_tool w tc) as [text|e|].
    + rewrite tool_used_name_tool_message in Hnm. simpl in Hr. by subst.
    + by rewrite error_text_not_reportable in Hrep.
    + by rewrite cancelled_text_not_reportable in Hrep.
Qed.

Lemma report_is_backed_by_calls_witness :
  let w := Demo.fresh (Demo.llm_calls [Demo.call_sql; Demo.call_doc]) in
  let m := run Demo.staggered 9 w (Some "Hi") in
  replies_not_tool w
  ∧ tools_used (chat_history (wf m)) = [("sql_tool", "1990-04-12")]%string
  ∧ ∃ tc, tc ∈ calls_run m ∧ tool_name tc = "sql_tool"%string
          ∧ invoke_tool w tc = Return "1990-04-12"%string.
Proof.
  intros w m.
  assert (Hllm : replies_not_tool w).
  { intros h ai tcs. unfold reasoning_call. simpl.
    case_decide; by intros [= <- _]. }
  split; [exact Hllm|]. split; [reflexivity|].
  destruct (report_is_backed_by_calls Demo.staggered 9 w (Some "Hi")
              "sql_tool" "1990-04-12" Hllm) as [(msg & Hmsg & _)|Hcall].
  - vm_compute. left.
  - by apply not_elem_of_nil in Hmsg.
  - exact Hcall.
Defined.
